(** * SpringRollContainer: the plugin registry, the Container lifecycle
      and the captions-styles plugin, as a shallow embedding.

    Sources embedded here:
    - [src/Container.js]: class [Container] and the module-level array
      [PLUGINS];
    - [src/container/plugins/CaptionsPlugin.js]: the captions plugin
      ([setCaptionsStyles], [getCaptionsStyles], [clearCaptionsStyles]).

    JavaScript values are modelled by inductive types carrying exactly the
    observations the source makes of them; methods that mutate [this] are
    written in a small state-and-exception monad whose state survives a
    [throw], as a JavaScript object does. *)

From Stdlib Require Import ZArith String Ascii List Bool Lia.
From Stdlib Require Import DecimalString.
From stdpp Require Import base list sorting strings gmap.

Set Warnings "-register-all".

Local Open Scope string_scope.
Local Open Scope Z_scope.

(** ** JavaScript completions *)

Inductive JsError :=
| TypeError (msg : string)        (* raised by the engine *)
| ErrorObj (msg : string)         (* [throw new Error(msg)] *)
| Thrown (msg : string).          (* [throw 'some string'] *)

Inductive Completion (A : Type) :=
| Normal (a : A)
| Throw (e : JsError).
Arguments Normal {A} a.
Arguments Throw {A} e.

(** ** Values handed to [Container.uses] *)

(** What reading [plugin.prototype] yields, as far as [isConstructor] can
    tell: a falsy value, or a truthy one together with its [constructor]
    property.  [ctor = None] is a falsy [constructor]; [ctor = Some s] is a
    truthy one whose string conversion (what [RegExp.prototype.test]
    matches against) is [s]. *)
Inductive Proto :=
| ProtoFalsy
| ProtoTruthy (ctor : option string).

(** The properties of a function or object that [uses] and the sort
    comparator read.  [priority = None] stands for a [priority] whose
    numeric conversion is NaN (a missing property, for instance). *)
Record Shape := mkShape {
  ident : string;
  priority : option Z;
  prototype : Proto
}.

Inductive JsValue :=
| JsUndefined
| JsNull
| JsBoolean (b : bool)
| JsNumber (z : Z)
| JsString (s : string)
| JsFunction (o : Shape)          (* typeof 'function': functions, classes *)
| JsObject (o : Shape).           (* any other object *)

Definition typeof (v : JsValue) : string :=
  match v with
  | JsUndefined => "undefined"
  | JsNull => "object"
  | JsBoolean _ => "boolean"
  | JsNumber _ => "number"
  | JsString _ => "string"
  | JsFunction _ => "function"
  | JsObject _ => "object"
  end.

(** [/^class/.test(s)] *)
Definition starts_with_class (s : string) : bool := String.prefix "class" s.

(** ** The plugin registry ([PLUGINS], [Container.uses]) *)

Module Registry.

(** The arrow function [isConstructor] inside [uses]:
    [!!plugin.prototype && plugin.prototype.constructor &&
     /^class/.test(plugin.prototype.constructor)].
    Reading a property of [undefined] or [null] raises a TypeError; on a
    primitive the read goes through the wrapper object, which has no
    [prototype] property. *)
Definition isConstructor (plugin : JsValue) : Completion bool :=
  match plugin with
  | JsUndefined =>
      Throw (TypeError "Cannot read properties of undefined (reading 'prototype')")
  | JsNull =>
      Throw (TypeError "Cannot read properties of null (reading 'prototype')")
  | JsBoolean _ | JsNumber _ | JsString _ => Normal false
  | JsFunction o | JsObject o =>
      match prototype o with
      | ProtoFalsy => Normal false
      | ProtoTruthy None => Normal false
      | ProtoTruthy (Some s) => Normal (starts_with_class s)
      end
  end.

(** [x.priority] converted to a number, for an element of [PLUGINS]. *)
Definition priority_of (v : JsValue) : option Z :=
  match v with
  | JsFunction o | JsObject o => priority o
  | _ => None
  end.

(** The comparator [(a, b) => b.priority - a.priority]; [None] is NaN. *)
Definition compareFn (a b : JsValue) : option Z :=
  match priority_of b, priority_of a with
  | Some pb, Some pa => Some (pb - pa)
  | _, _ => None
  end.

(** [Array.prototype.sort] puts [a] after [b] when the comparator is
    positive; a NaN result counts as [+0]. *)
Definition sorts_after (a b : JsValue) : bool :=
  match compareFn a b with
  | Some d => 0 <? d
  | None => false
  end.

(** [Array.prototype.sort(compareFn)] is a stable sort (ECMAScript 2019);
    for a consistent comparator, which this one is when every priority is
    a number, its result is unique, and it is computed here by insertion
    from the right.  With a NaN priority in the array the comparator is
    not consistent and ECMAScript leaves the order to the engine; this
    function then agrees with the engines on the elements of the result,
    and on its order where every comparison an engine makes is a tie (the
    array is left as it is), but not in general. *)
Fixpoint insert (x : JsValue) (l : list JsValue) : list JsValue :=
  match l with
  | [] => [x]
  | y :: l' => if sorts_after x y then y :: insert x l' else x :: l
  end.

Fixpoint sort (l : list JsValue) : list JsValue :=
  match l with
  | [] => []
  | x :: l' => insert x (sort l')
  end.

(** [static uses(plugin = BasePlugin)].  The state is the array
    [PLUGINS]; the default value replaces an argument that is
    [undefined] (or omitted). *)
Definition uses (BasePlugin : JsValue) (arg : JsValue)
    (PLUGINS : list JsValue) : Completion (list JsValue) :=
  let plugin := match arg with JsUndefined => BasePlugin | _ => arg end in
  if negb (String.eqb "function" (typeof plugin)) then
    match isConstructor plugin with
    | Throw e => Throw e
    | Normal false => Normal PLUGINS               (* return; *)
    | Normal true => Normal (sort (PLUGINS ++ [plugin]))
    end
  else Normal (sort (PLUGINS ++ [plugin])).

(** [static get plugins()] *)
Definition plugins (PLUGINS : list JsValue) : list JsValue := PLUGINS.

(** [static clearPlugins()] *)
Definition clearPlugins (PLUGINS : list JsValue) : list JsValue := [].

(** The value [uses] works on, after the default parameter. *)
Definition defaulted (BasePlugin arg : JsValue) : JsValue :=
  match arg with JsUndefined => BasePlugin | _ => arg end.

(** Whether [uses] registers the (defaulted) value. *)
Definition registers (plugin : JsValue) : bool :=
  if String.eqb "function" (typeof plugin) then true
  else match isConstructor plugin with
       | Normal true => true
       | _ => false
       end.

(** A sequence of calls; a call that throws leaves [PLUGINS] as it
    was (the throw precedes the [push]). *)
Definition run_uses (BasePlugin : JsValue) (calls : list JsValue)
    (PLUGINS : list JsValue) : list JsValue :=
  fold_left
    (fun reg arg =>
       match uses BasePlugin arg reg with
       | Normal reg' => reg'
       | Throw _ => reg
       end)
    calls PLUGINS.

(** [a.priority >= b.priority] on numbers; false when either is NaN. *)
Definition priority_ge (a b : JsValue) : bool :=
  match priority_of a, priority_of b with
  | Some pa, Some pb => pb <=? pa
  | _, _ => false
  end.

(** Every element is followed only by elements of no greater priority. *)
Fixpoint sorted_desc (l : list JsValue) : bool :=
  match l with
  | [] => true
  | x :: l' => forallb (priority_ge x) l' && sorted_desc l'
  end.

Definition same_priority (p : option Z) (v : JsValue) : bool :=
  bool_decide (priority_of v = p).

(** The registered values all have a number for a priority. *)
Definition numeric (v : JsValue) : bool :=
  match priority_of v with Some _ => true | None => false end.

Definition numeric_if_registered (v : JsValue) : bool :=
  implb (registers v) (numeric v).

(** The invariant of the registry, relative to the values accepted so
    far, in the order of their registration: numeric priorities, sorted,
    the same values, and in the same order within every priority. *)
Definition ordered (reg acc : list JsValue) : Prop :=
  forallb numeric reg = true
  /\ sorted_desc reg = true
  /\ reg ≡ₚ acc
  /\ forall p, List.filter (same_priority p) reg
               = List.filter (same_priority p) acc.

End Registry.

(** ** [JSON.stringify] and [encodeURIComponent] *)

(** Strings are sequences of bytes holding the UTF-8 encoding of the
    JavaScript string (well-formed text), so that [encodeURIComponent]
    escapes them byte by byte.  A JavaScript number is a double: a safe
    integer (at most 2^53 - 1 in absolute value) is given by its value and
    printed in decimal, as [Number.prototype.toString] prints it; any
    other number is given by the text that [JSON.stringify] prints for it
    (['0.5'], ['1e+21'], ['null'] for NaN).  [well_formed] says that the
    integers of a value are safe ones. *)

Module Json.

Inductive Json :=
| JNull
| JBool (b : bool)
| JNumber (z : Z)                          (* a safe integer *)
| JDouble (text : string)                  (* any other number, as printed *)
| JString (s : string)
| JArray (items : list Json)
| JObject (props : list (string * Json)).   (* in enumeration order *)

Definition dquote : ascii := ascii_of_N 34.

Definition hex_digit (upper : bool) (n : N) : ascii :=
  if (n <? 10)%N then ascii_of_N (48 + n)
  else ascii_of_N ((if upper then 55 else 87) + n).

Definition hex2 (upper : bool) (c : ascii) : string :=
  let n := N_of_ascii c in
  String (hex_digit upper (n / 16))
    (String (hex_digit upper (n mod 16)) EmptyString).

(** One code unit of [QuoteJSONString]. *)
Definition quote_char (c : ascii) : string :=
  let n := N_of_ascii c in
  if (n =? 8)%N then "\b"
  else if (n =? 9)%N then "\t"
  else if (n =? 10)%N then "\n"
  else if (n =? 12)%N then "\f"
  else if (n =? 13)%N then "\r"
  else if (n =? 34)%N then String "\" (String dquote EmptyString)
  else if (n =? 92)%N then "\\"
  else if (n <? 32)%N then "\u00" ++ hex2 false c
  else String c EmptyString.

Fixpoint quote_chars (s : string) : string :=
  match s with
  | EmptyString => EmptyString
  | String c r => quote_char c ++ quote_chars r
  end.

(** [QuoteJSONString] *)
Definition quote (s : string) : string :=
  String dquote (quote_chars s ++ String dquote EmptyString).

Definition decimal (z : Z) : string := NilZero.string_of_int (Z.to_int z).

(** [JSON.stringify(value)] without indentation. *)
Fixpoint stringify (j : Json) : string :=
  match j with
  | JNull => "null"
  | JBool true => "true"
  | JBool false => "false"
  | JNumber z => decimal z
  | JDouble text => text
  | JString s => quote s
  | JArray items => "[" ++ String.concat "," (List.map stringify items) ++ "]"
  | JObject props =>
      "{" ++ String.concat ","
               (List.map (fun kv => quote (fst kv) ++ ":" ++ stringify (snd kv))
                  props)
          ++ "}"
  end.

(** [Number.MAX_SAFE_INTEGER] *)
Definition MAX_SAFE_INTEGER : Z := 9007199254740991.

(** The integers of a value are safe integers, those that [decimal]
    prints as JavaScript does. *)
Fixpoint well_formed (j : Json) : bool :=
  match j with
  | JNumber z => (- MAX_SAFE_INTEGER <=? z) && (z <=? MAX_SAFE_INTEGER)
  | JArray items => forallb well_formed items
  | JObject props => forallb (fun kv => well_formed (snd kv)) props
  | _ => true
  end.

(** The characters [encodeURIComponent] leaves alone:
    [A-Z a-z 0-9 - _ . ! ~ * ' ( )]. *)
Definition unreserved (c : ascii) : bool :=
  let n := N_of_ascii c in
  ((65 <=? n) && (n <=? 90) || (97 <=? n) && (n <=? 122)
   || (48 <=? n) && (n <=? 57)
   || existsb (N.eqb n) [45; 95; 46; 33; 126; 42; 39; 40; 41])%N.

Fixpoint encodeURIComponent (s : string) : string :=
  match s with
  | EmptyString => EmptyString
  | String c r =>
      (if unreserved c then String c EmptyString else "%" ++ hex2 true c)
      ++ encodeURIComponent r
  end.

(** [s.indexOf('?')] as a found/not-found answer. *)
Fixpoint contains_char (c : ascii) (s : string) : bool :=
  match s with
  | EmptyString => false
  | String d r => Ascii.eqb c d || contains_char c r
  end.

End Json.

(** ** The Container ([src/Container.js]) *)

Module Lifecycle.
Import Json.

(** *** The collaborators: the DOM, Bellhop, the plugin instances *)

(** The iframe element, as far as the container touches it. *)
Record Element := mkElement {
  src : string;
  classList : list string
}.

(** [this.main] and [this.dom] are references to one and the same DOM
    element, which lives in the world below. *)
Inductive ElemRef := TheIframe.

Definition classList_add (c : string) (e : Element) : Element :=
  mkElement (src e)
    (if bool_decide (c ∈ classList e) then classList e else classList e ++ [c]).

Definition classList_remove (c : string) (e : Element) : Element :=
  mkElement (src e) (filter (fun x => x ≠ c) (classList e)).

Definition setAttribute_src (v : string) (e : Element) : Element :=
  mkElement v (classList e).

(** What [client.respond] is given. *)
Inductive Payload :=
| PBoolean (b : bool)
| PJson (j : Json).

(** A Bellhop client: its identity, whether [connect] ran, the message
    types it has a handler for ([on]) and its registered responses. *)
Record Bellhop := mkBellhop {
  cid : nat;
  connected : bool;
  listeners : list string;
  responders : list (string * Payload)
}.

(** [new plugin(this)]: the instance remembers its constructor. *)
Record PluginInstance := mkInstance { ctor : JsValue }.

Inductive Hook := HOpen | HOpened | HClose | HClosed | HTeardown.

(** Everything the container does to the outside, in order. *)
Inductive Effect :=
| NewBellhop (id : nat)
| Connect (id : nat)
| On (id : nat) (type : string)
| Trigger (id : nat) (type : string)
| Send (id : nat) (type : string)
| Respond (id : nat) (name : string) (p : Payload)
| DestroyBellhop (id : nat)
| NewPlugin (p : JsValue)
| CallHook (h : Hook) (p : PluginInstance).

Definition Options : Type := list (string * string).

(** The fields of a constructed [Container]; [None] is [null]. *)
Record Container := mkContainer {
  main : option ElemRef;
  client : option Bellhop;
  dom : option ElemRef;
  loaded : bool;
  loading : bool;
  options : option Options;
  release : option string;
  plugins : list PluginInstance
}.

Record World := mkWorld {
  this : Container;
  iframe : Element;
  fresh : nat;                 (* identity of the next [new Bellhop()] *)
  trace : list Effect
}.

Definition set_main (v : option ElemRef) (t : Container) : Container :=
  mkContainer v (client t) (dom t) (loaded t) (loading t) (options t)
    (release t) (plugins t).
Definition set_client (v : option Bellhop) (t : Container) : Container :=
  mkContainer (main t) v (dom t) (loaded t) (loading t) (options t)
    (release t) (plugins t).
Definition set_dom (v : option ElemRef) (t : Container) : Container :=
  mkContainer (main t) (client t) v (loaded t) (loading t) (options t)
    (release t) (plugins t).
Definition set_loaded (v : bool) (t : Container) : Container :=
  mkContainer (main t) (client t) (dom t) v (loading t) (options t)
    (release t) (plugins t).
Definition set_loading (v : bool) (t : Container) : Container :=
  mkContainer (main t) (client t) (dom t) (loaded t) v (options t)
    (release t) (plugins t).
Definition set_options (v : option Options) (t : Container) : Container :=
  mkContainer (main t) (client t) (dom t) (loaded t) (loading t) v
    (release t) (plugins t).

(** *** The monad of methods: state that survives a [throw] *)

Definition M (A : Type) : Type := World -> Completion A * World.

#[global] Instance M_ret : MRet M := fun A a w => (Normal a, w).

#[global] Instance M_bind : MBind M := fun A B f m w =>
  match m w with
  | (Normal a, w') => f a w'
  | (Throw e, w') => (Throw e, w')
  end.

Definition throw {A : Type} (e : JsError) : M A := fun w => (Throw e, w).

Definition getThis : M Container := fun w => (Normal (this w), w).

Definition setThis (f : Container -> Container) : M unit := fun w =>
  (Normal tt, mkWorld (f (this w)) (iframe w) (fresh w) (trace w)).

Definition setIframe (f : Element -> Element) : M unit := fun w =>
  (Normal tt, mkWorld (this w) (f (iframe w)) (fresh w) (trace w)).

Definition emit (e : Effect) : M unit := fun w =>
  (Normal tt, mkWorld (this w) (iframe w) (fresh w) (trace w ++ [e])).

Definition freshId : M nat := fun w =>
  (Normal (fresh w), mkWorld (this w) (iframe w) (S (fresh w)) (trace w)).

Definition null_read (prop : string) : JsError :=
  TypeError ("Cannot read properties of null (reading '" ++ prop ++ "')").

(** [this.client.<prop>]: a TypeError when [this.client] is [null]. *)
Definition theClient (prop : string) : M Bellhop :=
  t ← getThis;
  match client t with
  | Some c => mret c
  | None => throw (null_read prop)
  end.

(** [this.main.<prop>] *)
Definition theMain (prop : string) : M ElemRef :=
  t ← getThis;
  match main t with
  | Some r => mret r
  | None => throw (null_read prop)
  end.

(** [list.forEach(f)] *)
Fixpoint forEach {A : Type} (f : A -> M unit) (l : list A) : M unit :=
  match l with
  | [] => mret tt
  | x :: l' => f x ;; forEach f l'
  end.

(** A lifecycle hook of a plugin instance.  Under the hook contract a hook
    returns normally and leaves the container's own fields alone; the call
    itself is what the container contributes. *)
Definition callHook (h : Hook) (p : PluginInstance) : M unit :=
  emit (CallHook h p).

(** Bellhop: [trigger], [send], [respond], [destroy], [on]. *)
Definition trigger (type : string) : M unit :=
  c ← theClient "trigger"; emit (Trigger (cid c) type).

Definition send (type : string) : M unit :=
  c ← theClient "send"; emit (Send (cid c) type).

Definition respond (name : string) (p : Payload) : M unit :=
  c ← theClient "respond";
  setThis (set_client (Some
    (mkBellhop (cid c) (connected c) (listeners c)
       (responders c ++ [(name, p)])))) ;;
  emit (Respond (cid c) name p).

Definition on (type : string) : M unit :=
  c ← theClient "on";
  setThis (set_client (Some
    (mkBellhop (cid c) (connected c) (listeners c ++ [type])
       (responders c)))) ;;
  emit (On (cid c) type).

Definition connect : M unit :=
  c ← theClient "connect";
  setThis (set_client (Some
    (mkBellhop (cid c) true (listeners c) (responders c)))) ;;
  emit (Connect (cid c)).

(** [new Bellhop()] assigned to [this.client]. *)
Definition newClient : M unit :=
  id ← freshId;
  setThis (set_client (Some (mkBellhop id false [] []))) ;;
  emit (NewBellhop id).

(** *** The constructor *)

(** The object under construction: a field is [None] until the
    constructor assigns it. *)
Record Uninit := mkUninit {
  u_main : option (option ElemRef);
  u_client : option (option Bellhop);
  u_dom : option (option ElemRef);
  u_loaded : option bool;
  u_loading : option bool;
  u_options : option (option Options);
  u_release : option (option string);
  u_plugins : option (list PluginInstance)
}.

Definition blank : Uninit :=
  mkUninit None None None None None None None None.

(** [PLUGINS.map(plugin => new plugin(this))]: [new] on a value that is
    not a function raises a TypeError; the instances made before it were
    made all the same.  A function is taken to be constructible and its
    constructor to return (an arrow function, on which [new] throws as
    well, is not told apart here); the properties below use this only to
    conclude from a container that was constructed, or that a value which
    is not a function makes the constructor throw. *)
Fixpoint instantiate (PLUGINS : list JsValue)
    : list Effect * Completion (list PluginInstance) :=
  match PLUGINS with
  | [] => ([], Normal [])
  | p :: rest =>
      match p with
      | JsFunction _ =>
          match instantiate rest with
          | (es, Normal insts) => (NewPlugin p :: es, Normal (mkInstance p :: insts))
          | (es, Throw e) => (NewPlugin p :: es, Throw e)
          end
      | _ => ([], Throw (TypeError "plugin is not a constructor"))
      end
  end.

Record Construction := mkConstruction {
  object : Uninit;                    (* [this] when the constructor ended *)
  effects : list Effect;
  outcome : Completion World
}.

(** [constructor(iframeSelector, options = {})].  [querySelector] is the
    document's answer to a selector; [id] is the identity given to the
    [new Bellhop()]. *)
Definition constructor (querySelector : string -> option Element)
    (PLUGINS : list JsValue) (id : nat)
    (iframeSelector : string) (opts : option Options) : Construction :=
  let found := querySelector iframeSelector in
  let this1 :=
    mkUninit (Some (match found with Some _ => Some TheIframe | None => None end))
      None None None None None None None in
  match found with
  | None =>
      mkConstruction this1 []
        (Throw (ErrorObj "No iframe was found with the provided selector"))
  | Some el =>
      let c := mkBellhop id false [] [] in
      let o := match opts with Some o => o | None => [] end in
      let this7 :=
        mkUninit (Some (Some TheIframe)) (Some (Some c)) (Some (Some TheIframe))
          (Some false) (Some false) (Some (Some o)) (Some None) None in
      match instantiate PLUGINS with
      | (es, Throw e) => mkConstruction this7 (NewBellhop id :: es) (Throw e)
      | (es, Normal insts) =>
          mkConstruction
            (mkUninit (Some (Some TheIframe)) (Some (Some c))
               (Some (Some TheIframe)) (Some false) (Some false)
               (Some (Some o)) (Some None) (Some insts))
            (NewBellhop id :: es)
            (Normal
               (mkWorld
                  (mkContainer (Some TheIframe) (Some c) (Some TheIframe)
                     false false (Some o) None insts)
                  el (S id) (NewBellhop id :: es)))
      end
  end.

(** *** The methods *)

Section Methods.

(** The answer of [Features.basic()]: [None] for [null], otherwise the
    error message. *)
Variable Features_basic : option string.

(** [if (err)] *)
Definition truthy (err : option string) : bool :=
  match err with
  | None => false
  | Some s => negb (String.eqb s EmptyString)
  end.

Definition destroyClient : M unit :=
  t ← getThis;
  match client t with
  | Some c => emit (DestroyBellhop (cid c)) ;; setThis (set_client None)
  | None => mret tt
  end.

Definition onLoading : M unit := trigger "opening".

Definition onProgress : M unit := trigger "progress".

Definition onLoadDone : M unit :=
  setThis (set_loading false) ;;
  setThis (set_loaded true) ;;
  theMain "classList" ;;
  setIframe (classList_remove "loading") ;;
  t ← getThis;
  forEach (callHook HOpened) (plugins t) ;;
  trigger "opened".

Definition reset : M unit :=
  t ← getThis;
  let wasLoaded := loaded t || loading t in
  (if wasLoaded then forEach (callHook HClosed) (rev (plugins t)) else mret tt) ;;
  (if wasLoaded then trigger "closed" else mret tt) ;;
  destroyClient ;;
  setThis (set_loaded false) ;;
  setThis (set_loading false) ;;
  theMain "setAttribute" ;;
  setIframe (setAttribute_src EmptyString) ;;
  theMain "classList" ;;
  setIframe (classList_remove "loading").

Definition onEndGame : M unit := reset.

(** [onLocalError($event)], given [$event.type]. *)
Definition onLocalError (type : string) : M unit := trigger type.

Definition initClient : M unit :=
  newClient ;;
  connect ;;
  on "loading" ;;
  on "progress" ;;
  on "loaded" ;;
  on "endGame" ;;
  on "localError".

Definition _onCloseFailed : M unit := reset.

(** The options object given to [open]; a field is [None] when the
    property is [undefined], [playOptions = Some JNull] is [null]. *)
Record UserOptions := mkUserOptions {
  singlePlay : option bool;
  playOptions : option Json
}.

(** The path with the play options appended. *)
Definition withPlayOptions (userPath : string) (po : Json) : string :=
  let playOptionsQueryString :=
    "playOptions=" ++ encodeURIComponent (stringify po) in
  if negb (contains_char "?" userPath)
  then userPath ++ "?" ++ playOptionsQueryString
  else userPath ++ "&" ++ playOptionsQueryString.

(** The destructuring [{ singlePlay = false, playOptions = null } = {}]:
    an omitted argument is [{}], an [undefined] property takes its
    default. *)
Definition the_singlePlay (userOptions : option UserOptions) : bool :=
  match userOptions with
  | Some (mkUserOptions (Some b) _) => b
  | _ => false
  end.

Definition the_playOptions (userOptions : option UserOptions) : Json :=
  match userOptions with
  | Some (mkUserOptions _ (Some j)) => j
  | _ => JNull
  end.

(** The local [path]: [userPath], with the play options when they are
    not [null]. *)
Definition the_path (userPath : string) (po : Json) : string :=
  match po with
  | JNull => userPath
  | _ => withPlayOptions userPath po
  end.

(** [_internalOpen(userPath, { singlePlay = false, playOptions = null } = {})];
    [userOptions = None] is an omitted argument. *)
Definition _internalOpen (userPath : string) (userOptions : option UserOptions)
    : M unit :=
  let o_singlePlay := the_singlePlay userOptions in
  let o_playOptions := the_playOptions userOptions in
  reset ;;
  if truthy Features_basic then trigger "unsupported"
  else
    setThis (set_loading true) ;;
    initClient ;;
    t ← getThis;
    forEach (callHook HOpen) (plugins t) ;;
    let path := the_path userPath o_playOptions in
    theMain "classList" ;;
    setIframe (classList_add "loading") ;;
    theMain "setAttribute" ;;
    setIframe (setAttribute_src path) ;;
    respond "singlePlay" (PBoolean o_singlePlay) ;;
    respond "playOptions" (PJson o_playOptions) ;;
    trigger "open".

(** The second argument of [openPath]. *)
Inductive OpenArg :=
| ArgUndefined
| ArgBoolean (b : bool)
| ArgOptions (o : UserOptions).

(** [openPath(path, options = {}, playOptions = {})]; [po = None] is an
    omitted third argument. *)
Definition openPath (path : string) (opts : OpenArg) (po : option Json)
    : M unit :=
  let playOptions1 := match po with Some j => j | None => JObject [] end in
  let options1 :=
    match opts with
    | ArgUndefined => mkUserOptions None None
    | ArgBoolean _ => mkUserOptions (Some false) (Some playOptions1)
    | ArgOptions o => o
    end in
  _internalOpen path (Some options1).

Definition destroy : M unit :=
  reset ;;
  t ← getThis;
  forEach (callHook HTeardown) (rev (plugins t)) ;;
  setThis (set_main None) ;;
  setThis (set_options None) ;;
  setThis (set_dom None).

Definition close : M unit :=
  t ← getThis;
  if loading t || loaded t then
    forEach (callHook HClose) (plugins t) ;;
    trigger "close" ;;
    send "close"
  else reset.

End Methods.

(** *** The lifecycle as a transition system *)

(** What can happen to a container: calls by the host page and messages
    from the embedded application (delivered to the handlers that
    [initClient] registered). *)
Inductive Op :=
| Open (path : string) (o : option UserOptions)
| OpenPath (path : string) (a : OpenArg) (po : option Json)
| Close
| Destroy
| CloseFailed
| Loading
| Progress
| Loaded
| EndGame
| LocalError (type : string).

Definition perform (Features_basic : option string) (op : Op) : M unit :=
  match op with
  | Open path o => _internalOpen Features_basic path o
  | OpenPath path a po => openPath Features_basic path a po
  | Close => close
  | Destroy => destroy
  | CloseFailed => _onCloseFailed
  | Loading => onLoading
  | Progress => onProgress
  | Loaded => onLoadDone
  | EndGame => onEndGame
  | LocalError type => onLocalError type
  end.

(** The message type an operation is the handler of. *)
Definition message (op : Op) : option string :=
  match op with
  | Loading => Some "loading"
  | Progress => Some "progress"
  | Loaded => Some "loaded"
  | EndGame => Some "endGame"
  | LocalError _ => Some "localError"
  | _ => None
  end.

Definition hears (type : string) (w : World) : bool :=
  match client (this w) with
  | Some c => bool_decide (type ∈ listeners c)
  | None => false
  end.

(** A message reaches its handler only through a live client that
    listens for it. *)
Definition enabled (op : Op) (w : World) : bool :=
  match message op with
  | Some type => hears type w
  | None => true
  end.

Inductive reachable : World -> Prop :=
| reach_new querySelector PLUGINS id sel opts w :
    outcome (constructor querySelector PLUGINS id sel opts) = Normal w ->
    reachable w
| reach_step F op w :
    reachable w -> enabled op w = true -> reachable (snd (perform F op w)).

Definition session_listeners : list string :=
  ["loading"; "progress"; "loaded"; "endGame"; "localError"].

(** The invariant of the lifecycle: the two flags exclude each other; in a
    session ([loaded] or [loading]) the iframe is there and the client is
    the session's, wired by [initClient]; outside a session no client
    listens for anything; a client's identity is older than the next one
    to be made. *)
Definition wf (w : World) : bool :=
  let t := this w in
  negb (loaded t && loading t) &&
  (if loaded t || loading t then
     match main t, client t with
     | Some _, Some c =>
         bool_decide (listeners c = session_listeners) && (cid c <? fresh w)%nat
     | _, _ => false
     end
   else
     match client t with
     | Some c => bool_decide (listeners c = []) && (cid c <? fresh w)%nat
     | None => true
     end).

Definition triggers (type : string) (e : Effect) : bool :=
  match e with
  | Trigger _ t => String.eqb t type
  | _ => false
  end.


Definition is_new_client (e : Effect) : bool :=
  match e with NewBellhop _ => true | _ => false end.

Definition is_hook (h : Hook) (e : Effect) : bool :=
  match e, h with
  | CallHook HOpen _, HOpen
  | CallHook HOpened _, HOpened
  | CallHook HClose _, HClose
  | CallHook HClosed _, HClosed
  | CallHook HTeardown _, HTeardown => true
  | _, _ => false
  end.

(** The client of a session opened with identity [id], and what opening
    it adds to the trace. *)
Definition session_client (id : nat) (sp : bool) (po : Json) : Bellhop :=
  mkBellhop id true session_listeners
    [("singlePlay", PBoolean sp); ("playOptions", PJson po)].

Definition session_effects (id : nat) (ps : list PluginInstance)
    (sp : bool) (po : Json) : list Effect :=
  [NewBellhop id; Connect id] ++ map (On id) session_listeners
  ++ map (CallHook HOpen) ps
  ++ [Respond id "singlePlay" (PBoolean sp); Respond id "playOptions" (PJson po);
      Trigger id "open"].

(** What [reset] adds to the trace. *)
Definition reset_effects (t : Container) : list Effect :=
  (if loaded t || loading t
   then map (CallHook HClosed) (rev (plugins t))
        ++ match client t with
           | Some c => [Trigger (cid c) "closed"]
           | None => []
           end
   else [])
  ++ match client t with
     | Some c => [DestroyBellhop (cid c)]
     | None => []
     end.

(** How many effects of a trace satisfy a test. *)
Definition count (f : Effect -> bool) (l : list Effect) : nat :=
  length (List.filter f l).

End Lifecycle.

(** ** The captions plugin ([src/container/plugins/CaptionsPlugin.js]) *)

Module Captions.

Definition CAPTIONS_STYLES : string := "captionsStyles".

Definition DEFAULT_CAPTIONS_STYLES : gmap string string :=
  list_to_map
    [("size", "md"); ("background", "black-semi"); ("color", "white");
     ("edge", "none"); ("font", "arial"); ("align", "top")].

(** Modelled from the spec: [Object.merge(target, source)] is a helper of
    the SpringRoll core that this repository does not contain; on flat
    objects of strings it copies every property of [source] onto
    [target]. *)
Definition Object_merge (target source : gmap string string)
    : gmap string string :=
  source ∪ target.

(** The styles object is the finite map of its own properties; the names
    are those of ordinary data properties (not [__proto__], an assignment
    to which stores nothing, and not a name that is read through the
    prototype, such as [constructor], while it is not a property of the
    object's own).

    The plugin's state, with the collaborators its style methods use:
    [SavedData] (a key/value store that this repository does not contain,
    modelled as the map of what was written) and the container's
    client. *)
Record State := mkState {
  _captionsStyles : gmap string string;
  SavedData : gmap string (gmap string string);
  has_client : bool;
  sent : list (string * gmap string string)
}.

Definition ends_with (suffix s : string) : bool :=
  let n := String.length s in
  let k := String.length suffix in
  (k <=? n)%nat && String.eqb suffix (substring (n - k) k s).

Definition colours : list string :=
  ["black"; "white"; "red"; "yellow"; "pink"; "blue"].

(** [/^(black|white|red|yellow|pink|blue)(-semi)?$/] *)
Definition colorReg (s : string) : bool :=
  existsb (fun c => String.eqb s c || String.eqb s (c ++ "-semi")) colours.

(** [/^none|((black|white|red|yellow|pink|blue)(-semi)?)$/]: the
    alternation binds weaker than the anchors, so this is [^none] or
    [(colour)(-semi)?$]. *)
Definition backgroundReg (s : string) : bool :=
  String.prefix "none" s
  || existsb (fun c => ends_with c s || ends_with (c ++ "-semi") s) colours.

(** [/^(xs|sm|md|lg|xl)$/] *)
Definition sizeReg (s : string) : bool :=
  existsb (String.eqb s) ["xs"; "sm"; "md"; "lg"; "xl"].

(** [/^(raise|depress|uniform|drop|none)$/] *)
Definition edgeReg (s : string) : bool :=
  existsb (String.eqb s) ["raise"; "depress"; "uniform"; "drop"; "none"].

Definition fontReg (s : string) : bool :=
  existsb (String.eqb s)
    ["georgia"; "palatino"; "times"; "arial"; "arial-black"; "comic-sans";
     "impact"; "lucida"; "tahoma"; "trebuchet"; "verdana"; "courier";
     "console"].

(** [/^(top|bottom)$/] *)
Definition alignReg (s : string) : bool :=
  existsb (String.eqb s) ["top"; "bottom"].

(** [!styles.f || !reg.test(styles.f)] *)
Definition invalid (reg : string -> bool) (v : option string) : bool :=
  match v with
  | None => true
  | Some s => String.eqb s EmptyString || negb (reg s)
  end.

Definition shown (v : option string) : string :=
  match v with Some s => s | None => "undefined" end.

(** The checks of the [if (DEBUG)] block, in order. *)
Definition checks : list (string * (string -> bool)) :=
  [("color", colorReg); ("background", backgroundReg); ("size", sizeReg);
   ("edge", edgeReg); ("font", fontReg); ("align", alignReg)].

Fixpoint validate (cs : list (string * (string -> bool)))
    (styles : gmap string string) : Completion unit :=
  match cs with
  | [] => Normal tt
  | (f, reg) :: cs' =>
      if invalid reg (styles !! f)
      then Throw (Thrown ("Setting captions " ++ f ++ " style is invalid value : "
                          ++ shown (styles !! f)))
      else validate cs' styles
  end.

(** The first argument of [setCaptionsStyles]. *)
Inductive StylesArg :=
| SUndefined
| SNull
| SObject (styles : gmap string string)
| SName (prop : string).

Section Build.

(** The build flag [DEBUG]. *)
Variable DEBUG : bool.

(** [setCaptionsStyles(styles, value)]; the state is returned as the
    method left it, also when the validation threw. *)
Definition setCaptionsStyles (styles : StylesArg) (value : string)
    (st : State) : Completion unit * State :=
  let merged :=
    match styles with
    | SObject m => Object_merge (_captionsStyles st) m
    | SNull => Object_merge (_captionsStyles st) ∅
    | SName prop => <[prop := value]> (_captionsStyles st)
    | SUndefined => _captionsStyles st
    end in
  let st1 := mkState merged (SavedData st) (has_client st) (sent st) in
  match (if DEBUG then validate checks merged else Normal tt) with
  | Throw e => (Throw e, st1)
  | Normal _ =>
      (Normal tt,
       mkState merged (<[CAPTIONS_STYLES := merged]> (SavedData st))
         (has_client st)
         (if has_client st then sent st ++ [(CAPTIONS_STYLES, merged)]
          else sent st))
  end.

Inductive StylesResult :=
| AValue (v : option string)              (* [styles[prop]] *)
| AStyles (styles : gmap string string).  (* the whole object *)

(** [getCaptionsStyles(prop)]; an omitted or empty [prop] is falsy. *)
Definition getCaptionsStyles (prop : option string) (st : State)
    : StylesResult :=
  let styles := _captionsStyles st in
  match prop with
  | None => AStyles styles
  | Some p => if String.eqb p EmptyString then AStyles styles
              else AValue (styles !! p)
  end.


End Build.

(** The part of [setup] that initialises the styles:
    [Object.merge({}, DEFAULT_CAPTIONS_STYLES, SavedData.read(CAPTIONS_STYLES) || {})]. *)
Definition setup (store : gmap string (gmap string string)) (cl : bool)
    : State :=
  mkState
    (Object_merge (Object_merge ∅ DEFAULT_CAPTIONS_STYLES)
       (default ∅ (store !! CAPTIONS_STYLES)))
    store cl [].

(** The fields an object may carry for [setCaptionsStyles] to accept it
    in a debug build. *)
Definition valid_field (f : string) (v : string) : bool :=
  match List.find (fun c => String.eqb (fst c) f) checks with
  | Some (_, reg) => negb (invalid reg (Some v))
  | None => true
  end.

Definition valid_styles (m : gmap string string) : bool :=
  forallb (fun kv => valid_field (fst kv) (snd kv)) (map_to_list m).

Definition complete (m : gmap string string) : bool :=
  match validate checks m with Normal _ => true | Throw _ => false end.

End Captions.

(** ** Concrete values, for the examples below *)

Module Samples.
Import Json Lifecycle.

Definition PauseFn : JsValue :=
  JsFunction (mkShape "PausePlugin" (Some 80) (ProtoTruthy (Some "class PausePlugin")))%Z.

Definition CaptionsFn : JsValue :=
  JsFunction (mkShape "CaptionsPlugin" (Some 70) (ProtoTruthy (Some "class CaptionsPlugin")))%Z.

Definition HelpFn : JsValue :=
  JsFunction (mkShape "HelpPlugin" (Some 70) (ProtoTruthy (Some "class HelpPlugin")))%Z.

Definition BaseFn : JsValue :=
  JsFunction (mkShape "BasePlugin" (Some 0) (ProtoTruthy (Some "class BasePlugin")))%Z.

(** A plain function that has no [priority] property. *)
Definition BareFn : JsValue :=
  JsFunction (mkShape "bare" None (ProtoTruthy (Some "function bare() {}"))).

(** A document with one iframe, [#game]. *)
Definition document (selector : string) : option Element :=
  if String.eqb selector "#game" then Some (mkElement "about:blank" []) else None.

Definition no_world : World :=
  mkWorld (mkContainer None None None false false None None [])
    (mkElement EmptyString []) 0 [].

(** [new Container('#game')] with three plugins registered. *)
Definition fresh_world : World :=
  match outcome (constructor document [PauseFn; CaptionsFn; HelpFn] 0 "#game" None) with
  | Normal w => w
  | Throw _ => no_world
  end.

(** The same container after [open('/game')] in a supported environment,
    and after the application's [loaded] message. *)
Definition loading_world : World :=
  snd (_internalOpen None "/game" None fresh_world).

Definition loaded_world : World := snd (onLoadDone loading_world).

Definition level2 : Json := JObject [("level", JNumber 2)].

End Samples.

(** ** Observations on traces, worlds and strings *)

Module Observations.
Import Json Lifecycle.

(** Following the clients through a trace, from the client that is live
    (if any): a [new Bellhop()] is in order when no client is live, a
    destruction when it is of the live client; the result is the client
    live at the end, or [None] once a client was made while another was
    live, or a client other than the live one was destroyed. *)
Definition client_step (st : option (option nat)) (e : Effect)
    : option (option nat) :=
  match st, e with
  | Some None, NewBellhop id => Some (Some id)
  | Some (Some _), NewBellhop _ => None
  | Some (Some live), DestroyBellhop id =>
      if Nat.eqb live id then Some None else None
  | Some None, DestroyBellhop _ => None
  | _, _ => st
  end.

Definition live_client (tr : list Effect) : option (option nat) :=
  fold_left client_step tr (Some None).

(** Whether a container is in a session. *)
Definition in_session (w : World) : bool :=
  loaded (this w) || loading (this w).

(** A string all of whose characters pass a test. *)
Fixpoint all_chars (f : ascii -> bool) (s : string) : bool :=
  match s with
  | EmptyString => true
  | String c r => f c && all_chars f r
  end.

Fixpoint count_char (c : ascii) (s : string) : nat :=
  match s with
  | EmptyString => 0%nat
  | String d r => ((if Ascii.eqb c d then 1 else 0) + count_char c r)%nat
  end.

(** The characters [encodeURIComponent] can put out. *)
Definition url_safe (c : ascii) : bool :=
  unreserved c || Ascii.eqb c "%".

End Observations.

(** * Properties *)

(** ** The registry *)

Module RegistryFacts.
Import Registry.

Lemma insert_perm (x : JsValue) (l : list JsValue) : insert x l ≡ₚ x :: l.
Proof.
  induction l as [|y l IH]; simpl; [done|].
  destruct (sorts_after x y); [|done].
  rewrite IH. apply Permutation_swap.
Qed.

Lemma sort_perm (l : list JsValue) : sort l ≡ₚ l.
Proof.
  induction l as [|x l IH]; simpl; [done|].
  rewrite insert_perm. by rewrite IH.
Qed.

Lemma sorts_after_inv (x y : JsValue) :
  sorts_after x y = true ->
  exists px py, priority_of x = Some px /\ priority_of y = Some py /\ px < py.
Proof.
  unfold sorts_after, compareFn.
  destruct (priority_of y) as [py|], (priority_of x) as [px|]; try done.
  intros H. exists px, py. repeat split. apply Z.ltb_lt in H. lia.
Qed.

(** Stability: within one priority, insertion does not reorder. *)
Lemma insert_filter (p : option Z) (x : JsValue) (l : list JsValue) :
  List.filter (same_priority p) (insert x l)
  = List.filter (same_priority p) (x :: l).
Proof.
  induction l as [|y l IH]; [done|].
  cbn [insert]. destruct (sorts_after x y) eqn:E; [|done].
  apply sorts_after_inv in E as (px & py & Hx & Hy & Hlt).
  cbn [List.filter] in *. rewrite IH. unfold same_priority.
  rewrite Hx, Hy.
  repeat case_bool_decide; simplify_eq; try done; lia.
Qed.

Lemma sort_filter (p : option Z) (l : list JsValue) :
  List.filter (same_priority p) (sort l) = List.filter (same_priority p) l.
Proof.
  induction l as [|x l IH]; [done|].
  cbn [sort]. rewrite insert_filter. cbn [List.filter]. by rewrite IH.
Qed.

Lemma forallb_insert (f : JsValue -> bool) (x : JsValue) (l : list JsValue) :
  forallb f (insert x l) = f x && forallb f l.
Proof.
  induction l as [|y l IH]; [done|].
  cbn [insert]. destruct (sorts_after x y); [|done].
  cbn [forallb]. rewrite IH. by destruct (f x), (f y).
Qed.

Lemma insert_sorted (x : JsValue) (l : list JsValue) :
  numeric x = true -> forallb numeric l = true ->
  sorted_desc l = true -> sorted_desc (insert x l) = true.
Proof.
  intros Hx. induction l as [|y l IH]; [done|].
  cbn [forallb sorted_desc insert].
  intros [Hy Hl]%andb_prop [Hyl Hs]%andb_prop.
  destruct (sorts_after x y) eqn:E.
  - cbn [sorted_desc]. rewrite forallb_insert, Hyl, (IH Hl Hs).
    apply sorts_after_inv in E as (px & py & Ex & Ey & Hlt).
    unfold priority_ge. rewrite Ex, Ey.
    by rewrite (proj2 (Z.leb_le px py)) by lia.
  - cbn [sorted_desc forallb]. rewrite Hyl, Hs.
    unfold numeric in Hx, Hy. unfold sorts_after, compareFn in E.
    destruct (priority_of x) as [px|] eqn:Ex; [|done].
    destruct (priority_of y) as [py|] eqn:Ey; [|done].
    apply Z.ltb_ge in E.
    assert (Hxy : priority_ge x y = true).
    { unfold priority_ge. rewrite Ex, Ey. apply Z.leb_le. lia. }
    rewrite Hxy. cbn. rewrite andb_true_r.
    apply forallb_forall. intros z Hz.
    pose proof (proj1 (forallb_forall _ _) Hyl z Hz) as Hyz.
    unfold priority_ge in *. rewrite Ex. rewrite Ey in Hyz.
    destruct (priority_of z) as [pz|]; [|done].
    apply Z.leb_le. apply Z.leb_le in Hyz. lia.
Qed.

Lemma sort_sorted (l : list JsValue) :
  forallb numeric l = true -> sorted_desc (sort l) = true.
Proof.
  induction l as [|x l IH]; [done|].
  cbn [forallb sort]. intros [Hx Hl]%andb_prop.
  apply insert_sorted; [done| |by apply IH].
  clear -Hl. induction l as [|y l IH]; [done|].
  cbn [forallb sort] in *. apply andb_prop in Hl as [Hy Hl].
  rewrite forallb_insert, Hy. by apply IH.
Qed.

End RegistryFacts.

(** ** The container lifecycle *)

Module LifecycleFacts.
Import Json Lifecycle.

(** Unfolding the monad on a world given by its fields. *)
Ltac run :=
  repeat (cbn -[String.append session_listeners withPlayOptions Nat.ltb
                forEach callHook] in *;
          unfold mbind, M_bind, mret, M_ret, throw, getThis, setThis,
            setIframe, emit, freshId, theClient, theMain, trigger, send,
            respond, on, connect, newClient, set_main, set_client, set_dom,
            set_loaded, set_loading, set_options in *).

Lemma forEach_callHook (h : Hook) (l : list PluginInstance) (w : World) :
  forEach (callHook h) l w
  = (Normal tt,
     mkWorld (this w) (iframe w) (fresh w) (trace w ++ map (CallHook h) l)).
Proof.
  revert w. induction l as [|p l IH]; intros [t el n tr].
  - cbn. by rewrite app_nil_r.
  - cbn [forEach]. unfold mbind, M_bind. unfold callHook at 1, emit.
    rewrite IH. cbn. by rewrite <- app_assoc.
Qed.

(** What [reset] does to a well-formed world whose iframe is there. *)
Lemma reset_ok (w : World) :
  wf w = true ->
  main (this w) = Some TheIframe ->
  reset w
  = (Normal tt,
     mkWorld (set_loading false (set_loaded false (set_client None (this w))))
       (classList_remove "loading" (setAttribute_src EmptyString (iframe w)))
       (fresh w)
       (trace w ++ reset_effects (this w))).
Proof.
  destruct w as [[m c d ld lg o r ps] el n tr]. cbn. intros Hwf ->.
  unfold wf in Hwf. cbn in Hwf. unfold reset, destroyClient, reset_effects.
  destruct ld, lg, c as [c|]; try done; run;
    rewrite ?forEach_callHook; run; rewrite <- ?app_assoc, ?app_nil_r; done.
Qed.

(** A successful [_internalOpen]. *)
Lemma internalOpen_ok (F : option string) (path : string)
    (o : option UserOptions) (w : World) :
  wf w = true ->
  main (this w) = Some TheIframe ->
  truthy F = false ->
  _internalOpen F path o w
  = (Normal tt,
     mkWorld
       (mkContainer (Some TheIframe)
          (Some (session_client (fresh w) (the_singlePlay o) (the_playOptions o)))
          (dom (this w)) false true (options (this w)) (release (this w))
          (plugins (this w)))
       (setAttribute_src (the_path path (the_playOptions o))
          (classList_add "loading"
             (classList_remove "loading"
                (setAttribute_src EmptyString (iframe w)))))
       (S (fresh w))
       (trace w ++ reset_effects (this w)
          ++ session_effects (fresh w) (plugins (this w))
               (the_singlePlay o) (the_playOptions o))).
Proof.
  intros Hwf Hm HF. unfold _internalOpen. unfold mbind at 1, M_bind at 1.
  rewrite (reset_ok w Hwf Hm), HF.
  destruct w as [[m c d ld lg ops r ps] el n tr]. unfold initClient.
  cbn in Hm. subst m.
  run. rewrite forEach_callHook. run.
  unfold session_client, session_effects. run.
  by rewrite <- !app_assoc.
Qed.

(** Where the environment is not supported, [_internalOpen] ends in the
    TypeError of [this.client.trigger] on the [null] that [reset] left. *)
Lemma internalOpen_unsupported (F : option string) (path : string)
    (o : option UserOptions) (w : World) :
  wf w = true ->
  main (this w) = Some TheIframe ->
  truthy F = true ->
  _internalOpen F path o w
  = (Throw (null_read "trigger"),
     mkWorld (set_loading false (set_loaded false (set_client None (this w))))
       (classList_remove "loading" (setAttribute_src EmptyString (iframe w)))
       (fresh w)
       (trace w ++ reset_effects (this w))).
Proof.
  intros Hwf Hm HF. unfold _internalOpen. unfold mbind at 1, M_bind at 1.
  rewrite (reset_ok w Hwf Hm), HF. by run.
Qed.

(** A well-formed world that hears a message is in a session. *)
Lemma hears_session (type : string) (w : World) :
  wf w = true -> hears type w = true ->
  loaded (this w) || loading (this w) = true
  /\ main (this w) = Some TheIframe
  /\ exists c, client (this w) = Some c.
Proof.
  destruct w as [[m c d ld lg o r ps] el n tr]. unfold wf, hears. cbn.
  destruct ld, lg, m as [[]|], c as [c|]; cbn; try done; intros Hwf Hh; eauto.
  all: apply andb_prop in Hwf as [Hl%bool_decide_eq_true _]; rewrite Hl in Hh.
  all: apply bool_decide_eq_true in Hh; by apply elem_of_nil in Hh.
Qed.

Lemma session_client_live (w : World) :
  wf w = true ->
  loaded (this w) || loading (this w) = true ->
  main (this w) = Some TheIframe /\ exists c, client (this w) = Some c.
Proof.
  destruct w as [[m c d ld lg o r ps] el n tr]. unfold wf. cbn.
  intros Hwf Hs. rewrite Hs in Hwf.
  destruct m as [[]|], c as [c|]; eauto; by rewrite andb_false_r in Hwf.
Qed.

(** *** The invariant holds on every reachable world *)

Lemma reset_wf (w : World) : wf w = true -> wf (snd (reset w)) = true.
Proof.
  destruct w as [[m c d ld lg o r ps] el n tr]. unfold wf. cbn.
  unfold reset, destroyClient.
  destruct ld, lg, m as [[]|], c as [c|]; try done; intros _; run;
    rewrite ?forEach_callHook; by run.
Qed.

Lemma internalOpen_wf (F : option string) (path : string)
    (o : option UserOptions) (w : World) :
  wf w = true -> wf (snd (_internalOpen F path o w)) = true.
Proof.
  intros Hwf. destruct (main (this w)) as [[]|] eqn:Hm.
  - destruct (truthy F) eqn:HF.
    + rewrite internalOpen_unsupported by done. clear. by destruct w as [[]].
    + rewrite internalOpen_ok by done. unfold wf, session_client.
      cbn -[Nat.ltb].
      rewrite bool_decide_eq_true_2 by done. cbn -[Nat.ltb].
      apply Nat.ltb_lt. lia.
  - destruct w as [[m c d ld lg ops r ps] el n tr]. cbn in Hm. subst m.
    unfold wf in Hwf. cbn in Hwf. unfold _internalOpen, reset, destroyClient.
    destruct ld, lg, c as [c|]; try done; by run.
Qed.

Lemma close_wf (w : World) : wf w = true -> wf (snd (close w)) = true.
Proof.
  intros Hwf. unfold close. unfold mbind at 1, M_bind at 1, getThis.
  destruct (loading (this w) || loaded (this w)) eqn:Hs; [|by apply reset_wf].
  rewrite orb_comm in Hs.
  destruct (session_client_live w Hwf Hs) as (Hm & c & Hc).
  destruct w as [[m c' d ld lg ops r ps] el n tr]. cbn in Hm, Hc. subst.
  run. rewrite forEach_callHook. by run.
Qed.

Lemma destroy_wf (w : World) : wf w = true -> wf (snd (destroy w)) = true.
Proof.
  destruct w as [[m c d ld lg o r ps] el n tr]. unfold wf. cbn.
  unfold destroy, reset, destroyClient.
  destruct ld, lg, m as [[]|], c as [c|]; try done; intros _; run;
    rewrite ?forEach_callHook; run; rewrite ?forEach_callHook; by run.
Qed.

Lemma trigger_wf (type : string) (w : World) :
  wf w = true -> wf (snd (trigger type w)) = true.
Proof.
  destruct w as [[m c d ld lg o r ps] el n tr]. unfold wf. cbn.
  destruct c as [c|]; by run.
Qed.

Lemma onLoadDone_wf (w : World) :
  wf w = true -> hears "loaded" w = true -> wf (snd (onLoadDone w)) = true.
Proof.
  intros Hwf Hh. destruct (hears_session _ w Hwf Hh) as (Hs & Hm & c & Hc).
  destruct w as [[m c' d ld lg o r ps] el n tr]. cbn in Hs, Hm, Hc. subst.
  unfold wf in *. cbn in *. rewrite Hs in Hwf.
  unfold onLoadDone. run. rewrite forEach_callHook. run.
  by apply andb_prop in Hwf as [_ ->].
Qed.

Lemma constructor_wf querySelector PLUGINS id sel opts (w : World) :
  outcome (constructor querySelector PLUGINS id sel opts) = Normal w ->
  wf w = true.
Proof.
  unfold constructor. destruct (querySelector sel) as [el|]; [|done].
  destruct (instantiate PLUGINS) as [es [insts|e]]; [|done]. cbn.
  intros [= <-]. unfold wf. cbn -[Nat.ltb]. apply Nat.ltb_lt. lia.
Qed.

Lemma perform_wf (F : option string) (op : Op) (w : World) :
  wf w = true -> enabled op w = true -> wf (snd (perform F op w)) = true.
Proof.
  intros Hwf He. destruct op; cbn [perform].
  - by apply internalOpen_wf.
  - by apply internalOpen_wf.
  - by apply close_wf.
  - by apply destroy_wf.
  - by apply reset_wf.
  - by apply trigger_wf.
  - by apply trigger_wf.
  - by apply onLoadDone_wf.
  - by apply reset_wf.
  - by apply trigger_wf.
Qed.

Lemma reachable_wf (w : World) : reachable w -> wf w = true.
Proof.
  induction 1 as [qs P id sel opts w Hc | F op w _ IH He].
  - by eapply constructor_wf.
  - by apply perform_wf.
Qed.

(** *** Counting in traces *)

Lemma count_app (f : Effect -> bool) (l1 l2 : list Effect) :
  count f (l1 ++ l2) = (count f l1 + count f l2)%nat.
Proof. unfold count. by rewrite List.filter_app, length_app. Qed.

Lemma count_hooks (f : Effect -> bool) (h : Hook) (ps : list PluginInstance) :
  (forall p, f (CallHook h p) = false) ->
  count f (map (CallHook h) ps) = 0%nat.
Proof.
  intros Hf. unfold count. induction ps as [|p ps IH]; [done|].
  cbn. by rewrite Hf.
Qed.

Lemma count_reset_effects (f : Effect -> bool) (t : Container) :
  (forall p, f (CallHook HClosed p) = false) ->
  (forall id, f (Trigger id "closed") = false) ->
  (forall id, f (DestroyBellhop id) = false) ->
  count f (reset_effects t) = 0%nat.
Proof.
  intros Hh Ht Hd. unfold reset_effects.
  rewrite count_app.
  destruct (loaded t || loading t), (client t) as [c|];
    rewrite ?count_app, ?count_hooks by done; unfold count; cbn;
    by rewrite ?Ht, ?Hd.
Qed.

(** *** The constructor *)

(** C9: when the iframe selector finds no element, the constructor throws
    the error right after the [main] field took [null]: no other field of
    the object was assigned, no Bellhop client and no plugin instance was
    made, and no container results. *)
Theorem constructor_missing_iframe_throws
    (querySelector : string -> option Element) (PLUGINS : list JsValue)
    (id : nat) (iframeSelector : string) (opts : option Options) :
  querySelector iframeSelector = None ->
  constructor querySelector PLUGINS id iframeSelector opts
  = mkConstruction
      (mkUninit (Some None) None None None None None None None)
      []
      (Throw (ErrorObj "No iframe was found with the provided selector")).
Proof. intros Hq. unfold constructor. by rewrite Hq. Qed.

Lemma constructor_missing_iframe_throws_witness :
  Samples.document "#nowhere" = None
  /\ object (constructor Samples.document [Samples.PauseFn] 0 "#nowhere" None)
     = mkUninit (Some None) None None None None None None None.
Proof.
  split; [reflexivity|].
  by rewrite (constructor_missing_iframe_throws Samples.document
                [Samples.PauseFn] 0 "#nowhere" None eq_refl).
Defined.

(** The instances of a constructed container are made from the registry
    as it stood, in its order. *)
Lemma constructor_plugins querySelector PLUGINS id sel opts (w : World) :
  outcome (constructor querySelector PLUGINS id sel opts) = Normal w ->
  plugins (this w) = map mkInstance PLUGINS
  /\ trace w = NewBellhop id :: map NewPlugin PLUGINS
  /\ main (this w) = Some TheIframe.
Proof.
  unfold constructor. destruct (querySelector sel) as [el|]; [|done].
  assert (Hi : forall es insts, instantiate PLUGINS = (es, Normal insts) ->
            insts = map mkInstance PLUGINS /\ es = map NewPlugin PLUGINS).
  { induction PLUGINS as [|p P IH]; cbn; [by intros ?? [= <- <-]|].
    destruct p; try done.
    destruct (instantiate P) as [es' [insts'|e]]; [|done].
    intros es insts [= <- <-]. by destruct (IH _ _ eq_refl) as [-> ->]. }
  destruct (instantiate PLUGINS) as [es [insts|e]] eqn:E; [|done].
  destruct (Hi _ _ eq_refl) as [-> ->]. by intros [= <-].
Qed.

(** No operation changes the list of plugin instances. *)
Lemma perform_plugins (F : option string) (op : Op) (w : World) :
  plugins (this (snd (perform F op w))) = plugins (this w).
Proof.
  destruct w as [[m c d ld lg o r ps] el n tr].
  destruct op; cbn [perform];
    unfold openPath, _internalOpen, close, destroy, _onCloseFailed,
      onLoading, onProgress, onLoadDone, onEndGame, onLocalError, reset,
      destroyClient, initClient;
    destruct ld, lg, m as [[]|], c as [c|], (truthy F);
    run; rewrite ?forEach_callHook; run; rewrite ?forEach_callHook; by run.
Qed.

(** *** Opening *)

(** C2: [openPath] with a boolean for [options] is accepted and runs
    [_internalOpen] with the given play options, but with
    [singlePlay: false] whatever the boolean was; on the sample container,
    [openPath('/game', true, {level: 2})] registers the response
    [singlePlay = false]. *)
Theorem openPath_boolean_drops_value :
  (forall F path b po,
     openPath F path (ArgBoolean b) po
     = _internalOpen F path
         (Some (mkUserOptions (Some false)
                  (Some (match po with Some j => j | None => JObject [] end)))))
  /\ (responders <$>
        client (this (snd (openPath None "/game" (ArgBoolean true)
                             (Some Samples.level2) Samples.fresh_world))))
     = Some [("singlePlay", PBoolean false);
             ("playOptions", PJson Samples.level2)]
  /\ (responders <$>
        client (this (snd (_internalOpen None "/game"
                             (Some (mkUserOptions (Some true) (Some Samples.level2)))
                             Samples.fresh_world))))
     = Some [("singlePlay", PBoolean true);
             ("playOptions", PJson Samples.level2)].
Proof. split; [done|]. split; reflexivity. Qed.

(** C3: in an environment that [Features.basic()] rejects, [_internalOpen]
    makes no client, calls no [open] hook and leaves [loading] false, but
    it does not emit [unsupported]: [reset] has set [this.client] to
    [null], and [this.client.trigger('unsupported')] raises a TypeError. *)
Theorem open_unsupported_raises_TypeError (F : option string) (path : string)
    (o : option UserOptions) (w : World) :
  wf w = true ->
  main (this w) = Some TheIframe ->
  truthy F = true ->
  let r := _internalOpen F path o w in
  fst r = Throw (null_read "trigger")
  /\ count (triggers "unsupported") (trace (snd r))
     = count (triggers "unsupported") (trace w)
  /\ count is_new_client (trace (snd r)) = count is_new_client (trace w)
  /\ count (is_hook HOpen) (trace (snd r)) = count (is_hook HOpen) (trace w)
  /\ loading (this (snd r)) = false
  /\ client (this (snd r)) = None.
Proof.
  intros Hwf Hm HF. cbn zeta. rewrite internalOpen_unsupported by done.
  cbn [fst snd trace this]. rewrite !count_app.
  rewrite !count_reset_effects by done.
  repeat split; try lia; by destruct w as [[]].
Qed.

Lemma open_unsupported_raises_TypeError_witness :
  fst (_internalOpen (Some "Browser does not support canvas") "/game" None
         Samples.fresh_world)
  = Throw (TypeError "Cannot read properties of null (reading 'trigger')")
  /\ count (triggers "unsupported")
       (trace (snd (_internalOpen (Some "Browser does not support canvas")
                      "/game" None Samples.fresh_world)))
     = 0%nat.
Proof.
  pose proof (open_unsupported_raises_TypeError
                (Some "Browser does not support canvas") "/game" None
                Samples.fresh_world eq_refl eq_refl eq_refl) as (H1 & H2 & _).
  split; [exact H1 | exact H2].
Defined.

(** C7: the [src] given to the iframe is the given path when the play
    options are absent (no options object, no [playOptions] property) or
    [null]; when they are present it is the path followed by [?] (or [&]
    when the path has a [?] already) and [playOptions=] with the
    URL-encoded JSON text of the play options, for every well-formed
    value; for ['/game'] and [{level: 2}] it is
    ['/game?playOptions=%7B%22level%22%3A2%7D']. *)
Theorem open_sets_src (F : option string) (path : string)
    (o : option UserOptions) (w : World) :
  wf w = true ->
  main (this w) = Some TheIframe ->
  truthy F = false ->
  let result := src (iframe (snd (_internalOpen F path o w))) in
  (o = None
   \/ (exists sp, o = Some (mkUserOptions sp None))
   \/ (exists sp, o = Some (mkUserOptions sp (Some JNull))) ->
   result = path)
  /\ (forall sp po,
      o = Some (mkUserOptions sp (Some po)) ->
      po <> JNull ->
      well_formed po = true ->
      result = path ++ (if contains_char "?" path then "&" else "?")
                    ++ "playOptions=" ++ encodeURIComponent (stringify po))
  /\ (forall sp,
      path = "/game" ->
      o = Some (mkUserOptions sp (Some (JObject [("level", JNumber 2)]))) ->
      result = "/game?playOptions=%7B%22level%22%3A2%7D").
Proof.
  intros Hwf Hm HF. cbn zeta. rewrite internalOpen_ok by done.
  cbn [snd iframe src setAttribute_src].
  split; [|split].
  - by intros [->|[[sp ->]|[sp ->]]].
  - intros sp po -> Hpo _. cbn [the_playOptions].
    unfold the_path, withPlayOptions.
    destruct po; try done; by destruct (contains_char "?" path).
  - by intros sp -> ->.
Qed.

Lemma open_sets_src_witness :
  src (iframe (snd (_internalOpen None "/game"
                      (Some (mkUserOptions None (Some Samples.level2)))
                      Samples.fresh_world)))
  = "/game?playOptions=%7B%22level%22%3A2%7D"
  /\ src (iframe (snd (_internalOpen None "/game?a=1"
                         (Some (mkUserOptions (Some true)
                                  (Some (JArray [JNumber (-3); JDouble "0.5";
                                                 JString "a b"]))))
                         Samples.fresh_world)))
     = "/game?a=1&playOptions=%5B-3%2C0.5%2C%22a%20b%22%5D"
  /\ src (iframe (snd (_internalOpen None "/game" None Samples.fresh_world)))
     = "/game".
Proof.
  assert (Hwf : wf Samples.fresh_world = true) by (vm_compute; reflexivity).
  assert (Hm : main (this Samples.fresh_world) = Some TheIframe)
    by (vm_compute; reflexivity).
  split; [|split].
  - exact (proj2 (proj2 (open_sets_src None "/game"
             (Some (mkUserOptions None (Some Samples.level2)))
             Samples.fresh_world Hwf Hm eq_refl)) None eq_refl eq_refl).
  - rewrite (proj1 (proj2 (open_sets_src None "/game?a=1" _
               Samples.fresh_world Hwf Hm eq_refl)) _ _ eq_refl);
      [vm_compute; reflexivity | discriminate | vm_compute; reflexivity].
  - exact (proj1 (open_sets_src None "/game" None
             Samples.fresh_world Hwf Hm eq_refl) (or_introl eq_refl)).
Defined.

(** What the handler of [loaded] does in a session. *)
Lemma onLoadDone_ok (w : World) (c : Bellhop) :
  main (this w) = Some TheIframe ->
  client (this w) = Some c ->
  onLoadDone w
  = (Normal tt,
     mkWorld (set_loaded true (set_loading false (this w)))
       (classList_remove "loading" (iframe w))
       (fresh w)
       (trace w ++ map (CallHook HOpened) (plugins (this w))
          ++ [Trigger (cid c) "opened"])).
Proof.
  destruct w as [[m c' d ld lg o r ps] el n tr]. cbn. intros -> ->.
  unfold onLoadDone. run. rewrite forEach_callHook. run.
  by rewrite <- app_assoc.
Qed.

Lemma classList_remove_idem (c : string) (e : Element) :
  classList_remove c (classList_remove c e) = classList_remove c e.
Proof.
  unfold classList_remove. cbn. f_equal.
  induction (classList e) as [|x l IH]; [done|].
  rewrite !filter_cons. case_decide; [|done].
  rewrite filter_cons. case_decide; [|done]. by rewrite IH.
Qed.

Lemma classList_remove_gone (c : string) (e : Element) :
  c ∉ classList (classList_remove c e).
Proof.
  unfold classList_remove. cbn. intros [H _]%list_elem_of_filter. by apply H.
Qed.

(** C4: in the session that a successful open starts ([loading] true,
    [loaded] false), the handler of [loaded] returns normally, sets
    [loading] to false and [loaded] to true, takes the [loading] class off
    the iframe, calls [opened] on every plugin instance in the order of
    the list and then emits [opened]; run a second time in the same
    session it returns normally again and leaves the flags, the
    container's fields and the iframe as the first run left them (the
    hooks are called and [opened] is emitted once more). *)
Theorem onLoadDone_once_per_cycle (F : option string) (path : string)
    (o : option UserOptions) (w : World) :
  wf w = true ->
  main (this w) = Some TheIframe ->
  truthy F = false ->
  let w1 := snd (_internalOpen F path o w) in
  let w2 := snd (onLoadDone w1) in
  let w3 := snd (onLoadDone w2) in
  let opened_effects :=
    (map (CallHook HOpened) (plugins (this w))
       ++ [Trigger (fresh w) "opened"])%list in
  (loading (this w1) = true /\ loaded (this w1) = false
   /\ hears "loaded" w1 = true)
  /\ (fst (onLoadDone w1) = Normal tt
      /\ loading (this w2) = false /\ loaded (this w2) = true
      /\ ("loading" ∉ classList (iframe w2))
      /\ trace w2 = (trace w1 ++ opened_effects)%list)
  /\ (fst (onLoadDone w2) = Normal tt
      /\ this w3 = this w2 /\ iframe w3 = iframe w2
      /\ trace w3 = (trace w2 ++ opened_effects)%list).
Proof.
  intros Hwf Hm HF. cbn zeta. rewrite internalOpen_ok by done.
  cbn [snd]. erewrite onLoadDone_ok by reflexivity. cbn [snd fst].
  erewrite onLoadDone_ok by reflexivity. cbn [snd fst].
  cbn [this iframe trace fresh plugins loading loaded set_loading set_loaded
       client main cid session_client].
  repeat split.
  - apply classList_remove_gone.
  - by rewrite classList_remove_idem.
Qed.

Lemma onLoadDone_once_per_cycle_witness :
  let w1 := snd (_internalOpen None "/game" None Samples.fresh_world) in
  let w2 := snd (onLoadDone w1) in
  let w3 := snd (onLoadDone w2) in
  loading (this w1) = true
  /\ fst (onLoadDone w1) = Normal tt
  /\ loaded (this w2) = true
  /\ fst (onLoadDone w2) = Normal tt
  /\ this w3 = this w2.
Proof.
  assert (Hwf : wf Samples.fresh_world = true) by (vm_compute; reflexivity).
  assert (Hm : main (this Samples.fresh_world) = Some TheIframe)
    by (vm_compute; reflexivity).
  destruct (onLoadDone_once_per_cycle None "/game" None Samples.fresh_world
              Hwf Hm eq_refl)
    as ((H0 & _) & (H1 & _ & H2 & _) & (H3 & H4 & _)).
  intros w1 w2 w3.
  exact (conj H0 (conj H1 (conj H2 (conj H3 H4)))).
Defined.

(** C5: opening runs [reset] first.  In a session ([loaded] or [loading])
    the trace of [_internalOpen] gains, in this order: the [closed] hook
    of every plugin instance in reverse order, the [closed] event and the
    destruction of the session's client, and only then the new client,
    the [open] hooks and the [open] event of the new session, whose client
    is another one.  Outside a session no [closed] hook is called and no
    [closed] event is emitted. *)
Theorem open_resets_first (F : option string) (path : string)
    (o : option UserOptions) (w : World) :
  wf w = true ->
  main (this w) = Some TheIframe ->
  truthy F = false ->
  let r := _internalOpen F path o w in
  let new_session :=
    session_effects (fresh w) (plugins (this w))
      (the_singlePlay o) (the_playOptions o) in
  fst r = Normal tt
  /\ (loaded (this w) || loading (this w) = true ->
      exists c, client (this w) = Some c
        /\ cid c <> fresh w
        /\ trace (snd r)
           = (trace w
              ++ map (CallHook HClosed) (rev (plugins (this w)))
              ++ [Trigger (cid c) "closed"; DestroyBellhop (cid c)]
              ++ new_session)%list)
  /\ (loaded (this w) || loading (this w) = false ->
      exists old, trace (snd r) = (trace w ++ old ++ new_session)%list
        /\ count (is_hook HClosed) old = 0%nat
        /\ count (triggers "closed") old = 0%nat)
  /\ (exists before, new_session = (before ++ [Trigger (fresh w) "open"])%list)
  /\ (cid <$> client (this (snd r))) = Some (fresh w).
Proof.
  intros Hwf Hm HF. cbn zeta. rewrite internalOpen_ok by done.
  cbn [fst snd trace this client]. split; [done|].
  split; [|split; [|split; [|done]]].
  - intros Hs. destruct (session_client_live w Hwf Hs) as (_ & c & Hc).
    exists c. split; [done|]. split.
    + unfold wf in Hwf. rewrite Hs, Hm, Hc in Hwf.
      apply andb_prop in Hwf as [_ [_ Hlt%Nat.ltb_lt]%andb_prop]. lia.
    + unfold reset_effects. rewrite Hs, Hc. by rewrite <- !app_assoc.
  - intros Hs. exists (reset_effects (this w)). split; [done|].
    unfold reset_effects. rewrite Hs. cbn [app].
    destruct (client (this w)); done.
  - unfold session_effects.
    exists ([NewBellhop (fresh w); Connect (fresh w)]
            ++ map (On (fresh w)) session_listeners
            ++ map (CallHook HOpen) (plugins (this w))
            ++ [Respond (fresh w) "singlePlay" (PBoolean (the_singlePlay o));
                Respond (fresh w) "playOptions" (PJson (the_playOptions o))])%list.
    by rewrite <- !app_assoc.
Qed.

Lemma open_resets_first_witness :
  exists c tail,
    client (this Samples.loaded_world) = Some c
    /\ trace (snd (_internalOpen None "/next" None Samples.loaded_world))
       = (trace Samples.loaded_world
          ++ map (CallHook HClosed) (rev (plugins (this Samples.loaded_world)))
          ++ [Trigger (cid c) "closed"; DestroyBellhop (cid c)]
          ++ tail ++ [Trigger (fresh Samples.loaded_world) "open"])%list.
Proof.
  assert (Hwf : wf Samples.loaded_world = true) by (vm_compute; reflexivity).
  assert (Hm : main (this Samples.loaded_world) = Some TheIframe)
    by (vm_compute; reflexivity).
  assert (Hs : loaded (this Samples.loaded_world)
               || loading (this Samples.loaded_world) = true)
    by (vm_compute; reflexivity).
  destruct (open_resets_first None "/next" None Samples.loaded_world
              Hwf Hm eq_refl) as (_ & H & _ & (tail & Ht) & _).
  destruct (H Hs) as (c & Hc & _ & Htr).
  exists c, tail. split; [exact Hc|]. rewrite Htr, Ht. reflexivity.
Defined.

(** *** Closing *)




End LifecycleFacts.

(** ** The registry under sequences of registrations *)

Module PluginOrder.
Import Registry RegistryFacts Json Lifecycle LifecycleFacts.
Local Open Scope list_scope.

Lemma uses_registers (B v : JsValue) (reg : list JsValue) :
  registers (defaulted B v) = true ->
  uses B v reg = Normal (sort (reg ++ [defaulted B v])).
Proof.
  unfold uses, registers. fold (defaulted B v).
  destruct (String.eqb "function" (typeof (defaulted B v))); [done|]. cbn.
  by destruct (isConstructor (defaulted B v)) as [[]|].
Qed.

Lemma uses_skips_or_throws (B v : JsValue) (reg : list JsValue) :
  registers (defaulted B v) = false ->
  uses B v reg = Normal reg \/ exists e, uses B v reg = Throw e.
Proof.
  unfold uses, registers. fold (defaulted B v).
  destruct (String.eqb "function" (typeof (defaulted B v))); [done|]. cbn.
  destruct (isConstructor (defaulted B v)) as [[]|]; intros ?; try done; eauto.
Qed.

Lemma forallb_numeric_sort (l : list JsValue) :
  forallb numeric (sort l) = forallb numeric l.
Proof.
  induction l as [|x l IH]; [done|].
  cbn [sort forallb]. by rewrite forallb_insert, IH.
Qed.

Lemma run_uses_ordered (B : JsValue) (calls reg acc : list JsValue) :
  forallb numeric_if_registered (map (defaulted B) calls) = true ->
  ordered reg acc ->
  ordered (run_uses B calls reg)
    (acc ++ List.filter registers (map (defaulted B) calls)).
Proof.
  revert reg acc. induction calls as [|v calls IH]; intros reg acc Hn Hinv.
  { cbn. by rewrite app_nil_r. }
  cbn [map forallb] in Hn. apply andb_prop in Hn as [Hv Hn].
  cbn [run_uses fold_left map List.filter].
  destruct (registers (defaulted B v)) eqn:Hr.
  - rewrite uses_registers by done.
    replace (acc ++ defaulted B v :: List.filter registers (map (defaulted B) calls))
      with ((acc ++ [defaulted B v])
              ++ List.filter registers (map (defaulted B) calls))
      by by rewrite <- app_assoc.
    apply IH; [done|].
    destruct Hinv as (Hnum & _ & Hperm & Hst).
    unfold numeric_if_registered in Hv. rewrite Hr in Hv. cbn in Hv.
    assert (Hall : forallb numeric (reg ++ [defaulted B v]) = true).
    { rewrite forallb_app, Hnum. cbn. by rewrite Hv. }
    repeat split.
    + by rewrite forallb_numeric_sort.
    + by apply sort_sorted.
    + by rewrite sort_perm, Hperm.
    + intros p. by rewrite sort_filter, !List.filter_app, Hst.
  - destruct (uses_skips_or_throws B v reg Hr) as [-> | [e ->]];
      by apply IH.
Qed.

(** The three properties determine the list: whatever stable sort
    [Array.prototype.sort] is, on numeric priorities it returns the list
    computed here. *)
Lemma sorted_head_max (x y : JsValue) (l : list JsValue) :
  sorted_desc (x :: l) = true -> y ∈ l -> priority_ge x y = true.
Proof.
  cbn [sorted_desc]. intros [Hx _]%andb_prop Hy.
  apply (proj1 (forallb_forall _ _) Hx). by apply list_elem_of_In.
Qed.

Lemma same_priority_refl (y : JsValue) :
  same_priority (priority_of y) y = true.
Proof. unfold same_priority. by rewrite bool_decide_eq_true_2. Qed.

Lemma filter_head_elem (p : option Z) (y : JsValue) (l1 l2 : list JsValue) :
  priority_of y = p ->
  List.filter (same_priority p) l1 = List.filter (same_priority p) (y :: l2) ->
  y ∈ l1.
Proof.
  intros Hy Hf. apply list_elem_of_In.
  apply (proj1 (filter_In (same_priority p) y l1)). rewrite Hf.
  cbn [List.filter]. subst p. rewrite same_priority_refl. by left.
Qed.

Lemma ordered_unique (l1 l2 : list JsValue) :
  sorted_desc l1 = true -> sorted_desc l2 = true ->
  (forall p, List.filter (same_priority p) l1
             = List.filter (same_priority p) l2) ->
  l1 = l2.
Proof.
  revert l2. induction l1 as [|x l1 IH]; intros [|y l2] H1 H2 Hf.
  - done.
  - specialize (Hf (priority_of y)). cbn [List.filter] in Hf.
    by rewrite same_priority_refl in Hf.
  - specialize (Hf (priority_of x)). cbn [List.filter] in Hf.
    by rewrite same_priority_refl in Hf.
  - assert (Hp : priority_of x = priority_of y).
    { destruct (decide (priority_of x = priority_of y)) as [|Hne]; [done|].
      exfalso.
      assert (Hy : y ∈ l1).
      { pose proof (filter_head_elem _ y (x :: l1) l2 eq_refl (Hf _)) as Hy.
        apply elem_of_cons in Hy as [->|Hy]; done. }
      assert (Hx : x ∈ l2).
      { pose proof (filter_head_elem _ x (y :: l2) l1 eq_refl (eq_sym (Hf _))) as Hx.
        apply elem_of_cons in Hx as [->|Hx]; done. }
      pose proof (sorted_head_max x y l1 H1 Hy) as Hxy.
      pose proof (sorted_head_max y x l2 H2 Hx) as Hyx.
      unfold priority_ge in Hxy, Hyx.
      destruct (priority_of x) as [px|], (priority_of y) as [py|]; try done.
      apply Z.leb_le in Hxy, Hyx. apply Hne. f_equal. lia. }
    pose proof (Hf (priority_of x)) as Hfx. cbn [List.filter] in Hfx.
    rewrite same_priority_refl in Hfx. rewrite Hp in Hfx at 2.
    rewrite same_priority_refl in Hfx.
    injection Hfx as -> Hfx. f_equal.
    cbn [sorted_desc] in H1, H2.
    apply andb_prop in H1 as [_ H1]. apply andb_prop in H2 as [_ H2].
    apply IH; [done..|]. intros p. specialize (Hf p). cbn [List.filter] in Hf.
    destruct (same_priority p y); [by injection Hf|done].
Qed.

(** What [destroy] does to a well-formed world whose iframe is there. *)
Lemma destroy_ok (w : World) :
  wf w = true ->
  main (this w) = Some TheIframe ->
  destroy w
  = (Normal tt,
     mkWorld
       (mkContainer None None None false false None (release (this w))
          (plugins (this w)))
       (classList_remove "loading" (setAttribute_src EmptyString (iframe w)))
       (fresh w)
       (trace w ++ reset_effects (this w)
          ++ map (CallHook HTeardown) (rev (plugins (this w))))).
Proof.
  intros Hwf Hm. unfold destroy. unfold mbind at 1, M_bind at 1.
  rewrite (reset_ok w Hwf Hm). destruct w as [[m c d ld lg o r ps] el n tr].
  run. rewrite forEach_callHook. run.
  by rewrite <- !app_assoc.
Qed.

(** C1, as the code has it: after any sequence of calls of
    [Container.uses] in which every value that gets registered has a
    number for a priority, [PLUGINS] is sorted by non-increasing priority,
    holds exactly the registered values, and keeps values of equal
    priority in the order of their registration; a value other than [null]
    and [undefined] that is neither a function nor of the constructor
    shape is skipped without an error; and [destroy], on a container
    constructed from that list, calls [teardown] on the instances in the
    reverse of its order. *)
Theorem uses_keeps_plugins_sorted (BasePlugin : JsValue) (calls : list JsValue) :
  forallb numeric_if_registered (map (defaulted BasePlugin) calls) = true ->
  let accepted := List.filter registers (map (defaulted BasePlugin) calls) in
  let PLUGINS := run_uses BasePlugin calls [] in
  sorted_desc PLUGINS = true
  /\ PLUGINS ≡ₚ accepted
  /\ (forall p, List.filter (same_priority p) PLUGINS
                = List.filter (same_priority p) accepted)
  /\ (forall v reg, v <> JsNull -> v <> JsUndefined -> registers v = false ->
      uses BasePlugin v reg = Normal reg)
  /\ (forall querySelector id sel opts w,
      outcome (constructor querySelector PLUGINS id sel opts) = Normal w ->
      plugins (this w) = map mkInstance PLUGINS
      /\ fst (destroy w) = Normal tt
      /\ trace (snd (destroy w))
         = trace w ++ [DestroyBellhop id]
           ++ map (CallHook HTeardown) (rev (map mkInstance PLUGINS))).
Proof.
  intros Hn. cbn zeta.
  destruct (run_uses_ordered BasePlugin calls [] [] Hn) as (_ & Hs & Hp & Hst).
  { by repeat split. }
  cbn [app] in Hp, Hst. repeat split; try done.
  - intros v reg Hnull Hund Hr. unfold uses, registers in *.
    destruct v as [| | | | |sh|sh]; try done; cbn in *.
    destruct (prototype sh) as [|[c|]]; try done.
    by destruct (starts_with_class c).
  - by destruct (constructor_plugins _ _ _ _ _ _ H) as (-> & _).
  - rewrite destroy_ok; [done|by eapply constructor_wf|].
    by destruct (constructor_plugins _ _ _ _ _ _ H) as (_ & _ & ->).
  - pose proof (constructor_wf _ _ _ _ _ _ H) as Hwf.
    destruct (constructor_plugins _ _ _ _ _ _ H) as (Hps & Htr & Hm).
    rewrite destroy_ok by done. cbn [snd trace]. rewrite Hps. do 2 f_equal.
    revert H. unfold constructor. destruct (querySelector sel) as [el|]; [|done].
    destruct (instantiate _) as [es [insts|err]]; [|done].
    by intros [= <-].
Qed.

Lemma uses_keeps_plugins_sorted_witness :
  let calls :=
    [Samples.HelpFn; JsNumber 3; Samples.CaptionsFn; JsUndefined;
     Samples.PauseFn; JsString "captions"] in
  run_uses Samples.BaseFn calls []
  = [Samples.PauseFn; Samples.HelpFn; Samples.CaptionsFn; Samples.BaseFn]
  /\ sorted_desc (run_uses Samples.BaseFn calls []) = true.
Proof.
  intros calls. split; [reflexivity|].
  exact (proj1 (uses_keeps_plugins_sorted Samples.BaseFn calls eq_refl)).
Defined.

(** C1, as stated, fails: registering a function of priority 70, then a
    function without a [priority], then a function of priority 80 leaves
    them in that order, 70 before 80 (every comparison made involves the
    NaN of the missing priority and counts as a tie); [undefined], which
    is not callable, is not skipped: it stands for [BasePlugin], which is
    registered; and [uses(null)] is not skipped silently but raises a
    TypeError. *)
Lemma uses_arbitrary_values_counterexample :
  let PLUGINS :=
    run_uses Samples.BaseFn
      [Samples.HelpFn; Samples.BareFn; Samples.PauseFn] [] in
  PLUGINS = [Samples.HelpFn; Samples.BareFn; Samples.PauseFn]
  /\ priority_of Samples.HelpFn = Some 70%Z
  /\ priority_of Samples.PauseFn = Some 80%Z
  /\ sorted_desc PLUGINS = false
  /\ (typeof JsUndefined <> "function"
      /\ uses Samples.BaseFn JsUndefined [] = Normal [Samples.BaseFn])
  /\ uses Samples.BaseFn JsNull []
     = Throw (TypeError "Cannot read properties of null (reading 'prototype')").
Proof. repeat split. discriminate. Qed.

(** C10: with [BasePlugin] a function (a class), [uses()] and
    [uses(undefined)] register [BasePlugin]: it is appended and the list
    sorted again, so the list grows by one and holds [BasePlugin]; and a
    call that leaves the list as it was got a value that is not
    [undefined] and not a function. *)
Theorem uses_default_registers_BasePlugin (BasePlugin : JsValue)
    (PLUGINS : list JsValue) :
  typeof BasePlugin = "function" ->
  uses BasePlugin JsUndefined PLUGINS = Normal (sort (PLUGINS ++ [BasePlugin]))
  /\ BasePlugin ∈ sort (PLUGINS ++ [BasePlugin])
  /\ length (sort (PLUGINS ++ [BasePlugin])) = S (length PLUGINS)
  /\ (forall arg, uses BasePlugin arg PLUGINS = Normal PLUGINS ->
      arg <> JsUndefined /\ typeof arg <> "function").
Proof.
  intros HB.
  assert (Hlen : forall x, length (sort (PLUGINS ++ [x])) = S (length PLUGINS)).
  { intros x. rewrite (Permutation_length (sort_perm _)), length_app. cbn. lia. }
  assert (Hreg : forall arg, typeof (defaulted BasePlugin arg) = "function" ->
            uses BasePlugin arg PLUGINS <> Normal PLUGINS).
  { intros arg Hf. rewrite uses_registers by by (unfold registers; rewrite Hf).
    intros [= H]. pose proof (Hlen (defaulted BasePlugin arg)) as Hl.
    rewrite H in Hl. lia. }
  repeat split.
  - apply (uses_registers BasePlugin JsUndefined). unfold registers. cbn.
    by rewrite HB.
  - rewrite sort_perm. set_solver.
  - apply Hlen.
  - intros ->. by apply (Hreg JsUndefined).
  - intros Hf. apply (Hreg arg); [|done]. by destruct arg.
Qed.

Lemma uses_default_registers_BasePlugin_witness :
  typeof Samples.BaseFn = "function"
  /\ uses Samples.BaseFn JsUndefined [Samples.PauseFn]
     = Normal (sort ([Samples.PauseFn] ++ [Samples.BaseFn])).
Proof.
  split; [reflexivity|].
  exact (proj1 (uses_default_registers_BasePlugin Samples.BaseFn
                  [Samples.PauseFn] eq_refl)).
Defined.

End PluginOrder.

(** ** The captions styles *)

Module CaptionsFacts.
Import Captions.

(** The debug validation passes exactly when none of the six checks
    finds its field invalid. *)
Lemma validate_Normal (cs : list (string * (string -> bool)))
    (m : gmap string string) :
  validate cs m = Normal tt
  <-> forall f reg, In (f, reg) cs -> invalid reg (m !! f) = false.
Proof.
  induction cs as [|[f reg] cs IH]; cbn.
  - split; [by intros _ ?? []|done].
  - destruct (invalid reg (m !! f)) eqn:E.
    + split; [done|]. intros H. by rewrite (H f reg) in E by by left.
    + rewrite IH. split.
      * intros H f' reg' [[= <- <-]|Hin]; [done|by apply H].
      * intros H f' reg' Hin. apply H. by right.
Qed.

Lemma complete_validate (m : gmap string string) :
  complete m = true <-> validate checks m = Normal tt.
Proof.
  unfold complete. destruct (validate checks m) as [[]|e]; by split.
Qed.

(** A field that [valid_styles] accepted passes the check of its name. *)
Lemma valid_styles_field (styles : gmap string string) (f v : string)
    (reg : string -> bool) :
  valid_styles styles = true -> styles !! f = Some v ->
  In (f, reg) checks -> invalid reg (Some v) = false.
Proof.
  intros Hv Hf Hin. unfold valid_styles in Hv.
  assert (Hfv : valid_field f v = true).
  { apply (proj1 (forallb_forall _ _) Hv (f, v)).
    apply list_elem_of_In. by apply elem_of_map_to_list. }
  unfold checks in Hin. cbn in Hin.
  destruct Hin as [[= <- <-]|[[= <- <-]|[[= <- <-]|[[= <- <-]|[[= <- <-]|[[= <- <-]|[]]]]]]];
    unfold valid_field in Hfv; cbn in Hfv; by apply negb_true_iff in Hfv.
Qed.

Lemma merge_lookup (target source : gmap string string) (f : string) :
  Object_merge target source !! f
  = match source !! f with Some v => Some v | None => target !! f end.
Proof.
  unfold Object_merge. destruct (source !! f) as [v|] eqn:E.
  - by apply lookup_union_Some_l.
  - by rewrite lookup_union_r.
Qed.

Lemma merge_empty_target (source : gmap string string) :
  Object_merge ∅ source = source.
Proof. unfold Object_merge. by rewrite (right_id_L ∅ (∪)). Qed.

Lemma defaults_complete : validate checks DEFAULT_CAPTIONS_STYLES = Normal tt.
Proof. vm_compute. reflexivity. Qed.




End CaptionsFacts.

(** ** More on the lifecycle *)

Module LifecycleMore.
Import Json Lifecycle LifecycleFacts PluginOrder Observations.
Local Open Scope list_scope.

(** The invariant, spelled out, on every world a container can reach:
    [loaded] and [loading] are never both true; in a session the iframe is
    there and the client is the one [initClient] wired; outside a session
    the container hears no message at all. *)
Theorem lifecycle_invariant (w : World) :
  reachable w ->
  loaded (this w) && loading (this w) = false
  /\ (in_session w = true ->
      main (this w) = Some TheIframe
      /\ exists c, client (this w) = Some c
           /\ listeners c = session_listeners)
  /\ (in_session w = false -> forall type, hears type w = false).
Proof.
  intros Hw%reachable_wf. unfold in_session, hears.
  destruct w as [[m c d ld lg o r ps] el n tr]. unfold wf in Hw. cbn in *.
  destruct ld, lg, m as [[]|], c as [c|]; cbn in *; try done.
  all: repeat split; try done.
  all: apply andb_prop in Hw as [Hl%bool_decide_eq_true _].
  1,2: by exists c.
  all: intros _ type; rewrite Hl;
       by apply bool_decide_eq_false_2, not_elem_of_nil.
Qed.

Lemma sample_worlds_reachable :
  reachable Samples.fresh_world
  /\ reachable Samples.loading_world
  /\ reachable Samples.loaded_world.
Proof.
  assert (H0 : reachable Samples.fresh_world).
  { apply (reach_new Samples.document
             [Samples.PauseFn; Samples.CaptionsFn; Samples.HelpFn] 0
             "#game" None).
    vm_compute. reflexivity. }
  assert (E1 : Samples.loading_world
               = snd (perform None (Open "/game" None) Samples.fresh_world))
    by (vm_compute; reflexivity).
  assert (H1 : reachable Samples.loading_world).
  { rewrite E1. apply reach_step; [exact H0|]. vm_compute. reflexivity. }
  assert (E2 : Samples.loaded_world
               = snd (perform None Loaded Samples.loading_world))
    by (vm_compute; reflexivity).
  split; [exact H0|]. split; [exact H1|].
  rewrite E2. apply reach_step; [exact H1|]. vm_compute. reflexivity.
Qed.

Lemma lifecycle_invariant_witness :
  loaded (this Samples.loaded_world) && loading (this Samples.loaded_world)
  = false.
Proof.
  exact (proj1 (lifecycle_invariant Samples.loaded_world
                  (proj2 (proj2 sample_worlds_reachable)))).
Defined.

Ltac unfold_methods :=
  unfold openPath, _internalOpen, close, destroy, _onCloseFailed, onLoading,
    onProgress, onLoadDone, onEndGame, onLocalError, reset, destroyClient,
    initClient.

Lemma client_step_hooks {A : Type} (g : A -> Effect) (l : list A)
    (st : option (option nat)) :
  (forall x st', client_step st' (g x) = st') ->
  fold_left client_step (map g l) st = st.
Proof.
  intros Hg. revert st. induction l as [|x l IH]; intros st; [done|].
  cbn [map fold_left]. by rewrite Hg.
Qed.

Lemma client_step_CallHook (h : Hook) (p : PluginInstance)
    (st : option (option nat)) :
  client_step st (CallHook h p) = st.
Proof. by destruct st as [[?|]|]. Qed.

Lemma client_step_NewPlugin (v : JsValue) (st : option (option nat)) :
  client_step st (NewPlugin v) = st.
Proof. by destruct st as [[?|]|]. Qed.

Ltac follow_clients Hb :=
  unfold live_client in *; rewrite ?fold_left_app, ?Hb;
  repeat (cbn [fold_left client_step fmap option_fmap option_map];
          rewrite ?(client_step_hooks _ _ _ (client_step_CallHook _)),
            ?Nat.eqb_refl);
  try done.

Lemma perform_live_client (F : option string) (op : Op) (w : World) :
  wf w = true -> enabled op w = true ->
  live_client (trace w) = Some (cid <$> client (this w)) ->
  live_client (trace (snd (perform F op w)))
  = Some (cid <$> client (this (snd (perform F op w)))).
Proof.
  destruct w as [[m c d ld lg o r ps] el n tr].
  unfold wf, enabled, hears. cbn.
  destruct op; cbn [perform message]; unfold_methods;
    destruct ld, lg, m as [[]|], c as [c|], (truthy F); cbn; try done;
    intros _ _ Hb; run; rewrite ?forEach_callHook; run;
    rewrite ?forEach_callHook; run; follow_clients Hb.
Qed.

(** A container never has two clients: along the trace of every reachable
    world each [new Bellhop()] comes when no client is live and each
    destruction is of the client then live, so every client is destroyed
    before the next one is made; and the client live at the end of the
    trace is the one the container holds (none if it holds none). *)
Theorem one_client_at_a_time (w : World) :
  reachable w ->
  live_client (trace w) = Some (cid <$> client (this w)).
Proof.
  induction 1 as [qs P id sel opts w Hc | F op w Hw IH He].
  - destruct (constructor_plugins _ _ _ _ _ _ Hc) as (_ & Htr & _).
    rewrite Htr. unfold live_client. cbn [fold_left client_step].
    rewrite (client_step_hooks _ _ _ client_step_NewPlugin).
    revert Hc. unfold constructor. destruct (qs sel) as [el|]; [|done].
    destruct (instantiate P) as [es [insts|err]]; [|done].
    by intros [= <-].
  - apply perform_live_client; [by apply reachable_wf|done|done].
Qed.

Lemma one_client_at_a_time_witness :
  live_client (trace Samples.loaded_world)
  = Some (cid <$> client (this Samples.loaded_world)).
Proof.
  exact (one_client_at_a_time Samples.loaded_world
           (proj2 (proj2 sample_worlds_reachable))).
Defined.

(** Whatever message reaches a handler on a reachable world, the handler
    returns normally: no message from the application can make the
    container throw. *)
Theorem delivered_messages_never_throw (F : option string) (op : Op)
    (w : World) :
  reachable w ->
  message op <> None ->
  enabled op w = true ->
  fst (perform F op w) = Normal tt.
Proof.
  intros Hwf%reachable_wf Hmsg He. unfold enabled in He.
  destruct (message op) as [type|] eqn:Hop; [|done].
  destruct (hears_session type w Hwf He) as (Hs & Hm & c & Hc).
  destruct op; try done; cbn [perform]; unfold_methods.
  all: destruct w as [[m c' d ld lg o r ps] el n tr]; cbn in Hs, Hm, Hc; subst.
  all: run; rewrite ?Hs; run; rewrite ?forEach_callHook; by run.
Qed.

Lemma delivered_messages_never_throw_witness :
  fst (perform None EndGame Samples.loaded_world) = Normal tt.
Proof.
  apply delivered_messages_never_throw.
  - exact (proj2 (proj2 sample_worlds_reachable)).
  - discriminate.
  - vm_compute. reflexivity.
Defined.

(** What [close] does in a session. *)
Lemma close_session (w : World) (c : Bellhop) :
  in_session w = true -> client (this w) = Some c ->
  close w
  = (Normal tt,
     mkWorld (this w) (iframe w) (fresh w)
       (trace w ++ map (CallHook HClose) (plugins (this w))
          ++ [Trigger (cid c) "close"; Send (cid c) "close"])).
Proof.
  destruct w as [[m c' d ld lg o r ps] el n tr]. unfold in_session. cbn.
  intros Hs ->. unfold close. run. rewrite (orb_comm lg ld), Hs.
  run. rewrite forEach_callHook. run.
  by rewrite <- !app_assoc.
Qed.

(** On a container that was not destroyed, [close], [destroy] and [reset]
    always return normally, and [_internalOpen] returns normally exactly
    when the environment is supported. *)
Theorem host_calls_on_live_container (w : World) :
  wf w = true ->
  main (this w) = Some TheIframe ->
  fst (close w) = Normal tt
  /\ fst (destroy w) = Normal tt
  /\ fst (reset w) = Normal tt
  /\ (forall F path o,
      fst (_internalOpen F path o w) = Normal tt <-> truthy F = false).
Proof.
  intros Hwf Hm. split; [|split; [|split]].
  - destruct (in_session w) eqn:Hs.
    + destruct (session_client_live w Hwf Hs) as (_ & c & Hc).
      by rewrite (close_session w c).
    + unfold close. unfold mbind, M_bind, getThis.
      unfold in_session in Hs. rewrite (orb_comm (loading _)), Hs.
      by rewrite reset_ok.
  - by rewrite destroy_ok.
  - by rewrite reset_ok.
  - intros F path o. destruct (truthy F) eqn:HF.
    + by rewrite internalOpen_unsupported.
    + by rewrite internalOpen_ok.
Qed.

Lemma host_calls_on_live_container_witness :
  fst (destroy Samples.loaded_world) = Normal tt.
Proof.
  assert (Hwf : wf Samples.loaded_world = true) by (vm_compute; reflexivity).
  assert (Hm : main (this Samples.loaded_world) = Some TheIframe)
    by (vm_compute; reflexivity).
  exact (proj1 (proj2 (host_calls_on_live_container Samples.loaded_world
                         Hwf Hm))).
Defined.

(** [destroy] first notifies as [reset] does (in a session: [closed]
    hooks in reverse order, then the [closed] event), destroys the client,
    and only then calls [teardown] in reverse order; afterwards [main],
    [dom], [options] and [client] are null and both flags false, while the
    plugin instances and [release] stay. *)
Theorem destroy_releases_everything (w : World) :
  wf w = true ->
  main (this w) = Some TheIframe ->
  let d := snd (destroy w) in
  this d = mkContainer None None None false false None (release (this w))
             (plugins (this w))
  /\ trace d
     = trace w
       ++ (if in_session w
           then map (CallHook HClosed) (rev (plugins (this w)))
           else [])
       ++ match client (this w) with
          | Some c => (if in_session w then [Trigger (cid c) "closed"] else [])
                      ++ [DestroyBellhop (cid c)]
          | None => []
          end
       ++ map (CallHook HTeardown) (rev (plugins (this w)))
  /\ src (iframe d) = EmptyString
  /\ wf d = true.
Proof.
  intros Hwf Hm. cbn zeta. rewrite destroy_ok by done. cbn [snd this trace iframe].
  repeat split. unfold reset_effects, in_session.
  destruct (loaded (this w) || loading (this w)), (client (this w));
    cbn [app]; by rewrite <- ?app_assoc.
Qed.

Lemma destroy_releases_everything_witness :
  main (this (snd (destroy Samples.loaded_world))) = None
  /\ src (iframe (snd (destroy Samples.loaded_world))) = EmptyString.
Proof.
  assert (Hwf : wf Samples.loaded_world = true) by (vm_compute; reflexivity).
  assert (Hm : main (this Samples.loaded_world) = Some TheIframe)
    by (vm_compute; reflexivity).
  destruct (destroy_releases_everything Samples.loaded_world Hwf Hm)
    as (H1 & _ & H3 & _).
  split; [|exact H3]. by rewrite H1.
Defined.

(** A destroyed container is inert: every later call of the host
    ([_internalOpen], [openPath], [close], [destroy], the close-failure
    reset) raises the TypeError of [this.main.setAttribute] on [null] and
    changes nothing, not even the trace; and no message is heard any
    more. *)
Theorem destroyed_container_is_inert (F : option string) (op : Op)
    (w : World) :
  wf w = true ->
  main (this w) = Some TheIframe ->
  let d := snd (destroy w) in
  (message op = None ->
   perform F op d = (Throw (null_read "setAttribute"), d))
  /\ (message op <> None -> enabled op d = false).
Proof.
  intros Hwf Hm. cbn zeta. rewrite destroy_ok by done. cbn [snd].
  split; intros Hop; destruct op; try done; cbn [perform]; unfold_methods;
    by run.
Qed.

Lemma destroyed_container_is_inert_witness :
  fst (perform None (Open "/game" None) (snd (destroy Samples.loaded_world)))
  = Throw (null_read "setAttribute").
Proof.
  assert (Hwf : wf Samples.loaded_world = true) by (vm_compute; reflexivity).
  assert (Hm : main (this Samples.loaded_world) = Some TheIframe)
    by (vm_compute; reflexivity).
  by rewrite (proj1 (destroyed_container_is_inert None (Open "/game" None)
                       Samples.loaded_world Hwf Hm) eq_refl).
Defined.

Lemma setAttribute_remove_idem (e : Element) :
  classList_remove "loading"
    (setAttribute_src EmptyString
       (classList_remove "loading" (setAttribute_src EmptyString e)))
  = classList_remove "loading" (setAttribute_src EmptyString e).
Proof.
  pose proof (classList_remove_idem "loading" (setAttribute_src EmptyString e)) as H.
  unfold classList_remove, setAttribute_src in *. cbn in *.
  by injection H as ->.
Qed.

(** [reset] is idempotent: a second [reset] returns normally and leaves
    the container, the iframe and the trace exactly as the first left
    them. *)
Theorem reset_twice (w : World) :
  wf w = true ->
  main (this w) = Some TheIframe ->
  reset (snd (reset w)) = (Normal tt, snd (reset w)).
Proof.
  intros Hwf Hm. rewrite (reset_ok w Hwf Hm). cbn [snd].
  rewrite reset_ok; [|by destruct w as [[]]|by destruct w as [[]]].
  cbn [this iframe fresh trace]. rewrite setAttribute_remove_idem.
  unfold reset_effects. destruct w as [[m c d ld lg o r ps] el n tr].
  cbn. by rewrite app_nil_r.
Qed.

Lemma reset_twice_witness :
  reset (snd (reset Samples.loaded_world))
  = (Normal tt, snd (reset Samples.loaded_world)).
Proof.
  assert (Hwf : wf Samples.loaded_world = true) by (vm_compute; reflexivity).
  assert (Hm : main (this Samples.loaded_world) = Some TheIframe)
    by (vm_compute; reflexivity).
  exact (reset_twice Samples.loaded_world Hwf Hm).
Defined.

(** A whole session: open, the [loaded] message, [close], and the
    [endGame] message that answers it.  Every step returns normally; the
    container ends outside a session with no client, the iframe's [src]
    empty and the [loading] class gone; and what the session added to the
    trace is, in order: the new client and the [open] hooks and event, the
    [opened] hooks and event, the [close] hooks, event and message, the
    [closed] hooks in reverse order, the [closed] event and the
    destruction of the client. *)
Theorem session_round_trip (path : string) (o : option UserOptions)
    (w : World) :
  wf w = true ->
  main (this w) = Some TheIframe ->
  let id := fresh w in
  let ps := plugins (this w) in
  let w1 := snd (_internalOpen None path o w) in
  let w2 := snd (onLoadDone w1) in
  let w3 := snd (close w2) in
  let w4 := snd (onEndGame w3) in
  (fst (onLoadDone w1) = Normal tt /\ fst (close w2) = Normal tt
   /\ fst (onEndGame w3) = Normal tt)
  /\ this w4
     = mkContainer (Some TheIframe) None (dom (this w)) false false
         (options (this w)) (release (this w)) ps
  /\ src (iframe w4) = EmptyString
  /\ ("loading" ∉ classList (iframe w4))
  /\ trace w4
     = trace w1
       ++ map (CallHook HOpened) ps ++ [Trigger id "opened"]
       ++ map (CallHook HClose) ps
       ++ [Trigger id "close"; Send id "close"]
       ++ map (CallHook HClosed) (rev ps)
       ++ [Trigger id "closed"; DestroyBellhop id].
Proof.
  intros Hwf Hm. cbn zeta. rewrite internalOpen_ok by done. cbn [snd].
  erewrite onLoadDone_ok by reflexivity. cbn [snd fst].
  erewrite close_session by reflexivity. cbn [snd fst].
  unfold onEndGame. rewrite reset_ok; [|shelve|reflexivity].
  cbn [snd fst this iframe trace fresh plugins client main dom options
       release loaded loading set_loaded set_loading set_client
       session_client cid].
  split; [done|]. split; [done|]. split; [done|].
  split; [apply classList_remove_gone|].
  unfold reset_effects, set_loaded, set_loading, session_client.
  cbn [loaded loading client plugins orb cid].
  by rewrite <- !app_assoc.
  Unshelve.
  unfold wf, session_client.
  cbn -[Nat.ltb]. rewrite bool_decide_eq_true_2 by done.
  apply Nat.ltb_lt. lia.
Qed.

Lemma session_round_trip_witness :
  let w1 := snd (_internalOpen None "/game" None Samples.fresh_world) in
  let w4 := snd (onEndGame (snd (close (snd (onLoadDone w1))))) in
  src (iframe w4) = EmptyString.
Proof.
  assert (Hwf : wf Samples.fresh_world = true) by (vm_compute; reflexivity).
  assert (Hm : main (this Samples.fresh_world) = Some TheIframe)
    by (vm_compute; reflexivity).
  destruct (session_round_trip "/game" None Samples.fresh_world Hwf Hm)
    as (_ & _ & H & _).
  intros w1 w4. exact H.
Defined.

(** The deprecated call [openPath(path, <boolean>)] without play options
    does not open the bare path: the third parameter defaults to [{}],
    which is not [null], so the iframe gets the path with
    [playOptions=%7B%7D] appended. *)
Theorem openPath_boolean_appends_empty_options (F : option string)
    (path : string) (b : bool) (w : World) :
  wf w = true ->
  main (this w) = Some TheIframe ->
  truthy F = false ->
  src (iframe (snd (openPath F path (ArgBoolean b) None w)))
  = (path ++ (if contains_char "?" path then "&" else "?")
          ++ "playOptions=%7B%7D")%string.
Proof.
  intros Hwf Hm HF. unfold openPath. rewrite internalOpen_ok by done.
  cbn [snd iframe src setAttribute_src the_playOptions playOptions].
  unfold the_path, withPlayOptions.
  by destruct (contains_char "?" path).
Qed.

Lemma openPath_boolean_appends_empty_options_witness :
  src (iframe (snd (openPath None "/game" (ArgBoolean false) None
                      Samples.fresh_world)))
  = "/game?playOptions=%7B%7D".
Proof.
  assert (Hwf : wf Samples.fresh_world = true) by (vm_compute; reflexivity).
  assert (Hm : main (this Samples.fresh_world) = Some TheIframe)
    by (vm_compute; reflexivity).
  exact (openPath_boolean_appends_empty_options None "/game" false
           Samples.fresh_world Hwf Hm eq_refl).
Defined.

(** An open that fails because the environment is not supported still
    ends the running session and leaves the container usable: it is
    outside a session, its iframe [src] is empty, and the next open in a
    supported environment returns normally. *)
Theorem failed_open_recovers (F : option string) (path path' : string)
    (o o' : option UserOptions) (w : World) :
  wf w = true ->
  main (this w) = Some TheIframe ->
  truthy F = true ->
  let w' := snd (_internalOpen F path o w) in
  in_session w' = false
  /\ client (this w') = None
  /\ src (iframe w') = EmptyString
  /\ fst (_internalOpen None path' o' w') = Normal tt.
Proof.
  intros Hwf Hm HF. cbn zeta. rewrite internalOpen_unsupported by done.
  cbn [snd]. split; [by destruct w as [[]]|]. split; [by destruct w as [[]]|].
  split; [done|].
  rewrite internalOpen_ok; [done|by destruct w as [[]]| |done].
  by destruct w as [[]]; cbn in *.
Qed.

Lemma failed_open_recovers_witness :
  let w' := snd (_internalOpen (Some "no canvas") "/a" None Samples.loaded_world) in
  fst (_internalOpen None "/b" None w') = Normal tt.
Proof.
  assert (Hwf : wf Samples.loaded_world = true) by (vm_compute; reflexivity).
  assert (Hm : main (this Samples.loaded_world) = Some TheIframe)
    by (vm_compute; reflexivity).
  destruct (failed_open_recovers (Some "no canvas") "/a" "/b" None None
              Samples.loaded_world Hwf Hm eq_refl) as (_ & _ & _ & H).
  intros w'. exact H.
Defined.

(** Opening marks the iframe with the class [loading] and touches no
    other class: any other class is on the iframe after the open exactly
    when it was before. *)
Theorem open_marks_loading (F : option string) (path : string)
    (o : option UserOptions) (w : World) :
  wf w = true ->
  main (this w) = Some TheIframe ->
  truthy F = false ->
  let after := classList (iframe (snd (_internalOpen F path o w))) in
  "loading" ∈ after
  /\ forall c, c <> "loading" -> (c ∈ after <-> c ∈ classList (iframe w)).
Proof.
  intros Hwf Hm HF. cbn zeta. rewrite internalOpen_ok by done.
  cbn [snd iframe classList setAttribute_src classList_add classList_remove src].
  rewrite bool_decide_eq_false_2
    by (intros [H _]%list_elem_of_filter; by apply H).
  split; [apply elem_of_app; right; by apply list_elem_of_singleton|].
  intros c Hc. rewrite elem_of_app, list_elem_of_filter. split.
  - intros [[_ H]|H%list_elem_of_singleton]; done.
  - intros H. by left.
Qed.

Lemma open_marks_loading_witness :
  "loading" ∈ classList (iframe (snd (_internalOpen None "/game" None
                                        Samples.fresh_world))).
Proof.
  assert (Hwf : wf Samples.fresh_world = true) by (vm_compute; reflexivity).
  assert (Hm : main (this Samples.fresh_world) = Some TheIframe)
    by (vm_compute; reflexivity).
  exact (proj1 (open_marks_loading None "/game" None Samples.fresh_world
                  Hwf Hm eq_refl)).
Defined.

End LifecycleMore.

(** ** More on the registry *)

Module RegistryMore.
Import Registry RegistryFacts Json Lifecycle LifecycleFacts PluginOrder.
Import Observations.
Local Open Scope list_scope.

Lemma run_uses_accepted (B : JsValue) (calls reg acc : list JsValue) :
  reg ≡ₚ acc ->
  run_uses B calls reg
  ≡ₚ acc ++ List.filter registers (map (defaulted B) calls).
Proof.
  revert reg acc. induction calls as [|v calls IH]; intros reg acc Hp.
  { cbn. by rewrite app_nil_r. }
  cbn [run_uses fold_left map List.filter].
  destruct (registers (defaulted B v)) eqn:Hr.
  - rewrite uses_registers by done.
    replace (acc ++ defaulted B v :: List.filter registers (map (defaulted B) calls))
      with ((acc ++ [defaulted B v])
              ++ List.filter registers (map (defaulted B) calls))
      by by rewrite <- app_assoc.
    apply IH. by rewrite sort_perm, Hp.
  - destruct (uses_skips_or_throws B v reg Hr) as [-> | [e ->]];
      by apply IH.
Qed.

(** Whatever the values and their priorities (missing and non-numeric
    ones included), sorting loses and duplicates nothing: after any
    sequence of calls [PLUGINS] holds exactly the values [uses] accepted,
    as often as they were accepted, and never more entries than there
    were calls.  (Only the order of the entries depends on the sort.) *)
Theorem uses_keeps_every_accepted_value (BasePlugin : JsValue)
    (calls : list JsValue) :
  let accepted := List.filter registers (map (defaulted BasePlugin) calls) in
  let PLUGINS := run_uses BasePlugin calls [] in
  PLUGINS ≡ₚ accepted
  /\ length PLUGINS = length accepted
  /\ (length PLUGINS <= length calls)%nat
  /\ forall v, v ∈ PLUGINS <-> v ∈ accepted.
Proof.
  cbn zeta.
  pose proof (run_uses_accepted BasePlugin calls [] [] (reflexivity _)) as Hp.
  cbn [app] in Hp. split; [done|]. split; [by rewrite Hp|].
  split; [|intros v; by rewrite Hp]. rewrite Hp.
  etrans; [apply List.filter_length_le|]. by rewrite length_map.
Qed.

(** [PLUGINS] never holds a primitive, [null] or [undefined]: every value
    in it is a function, or an object whose [prototype.constructor] reads
    as a class; so the comparator's [a.priority] never reads a property of
    [null] or [undefined]. *)
Theorem registry_holds_functions_and_class_shapes (BasePlugin : JsValue)
    (calls : list JsValue) (v : JsValue) :
  v ∈ run_uses BasePlugin calls [] ->
  (exists o, v = JsFunction o)
  \/ (exists o s, v = JsObject o /\ prototype o = ProtoTruthy (Some s)
                  /\ starts_with_class s = true).
Proof.
  intros Hv.
  pose proof (run_uses_accepted BasePlugin calls [] [] (reflexivity _)) as Hp.
  cbn [app] in Hp. rewrite Hp in Hv. apply list_elem_of_In, filter_In in Hv as [_ Hr].
  unfold registers in Hr. destruct v as [| | | | |o|o]; try done; cbn in Hr.
  - left. by exists o.
  - right. destruct (prototype o) as [|[s|]] eqn:E; try done.
    destruct (starts_with_class s) eqn:Es; [|done]. by exists o, s.
Qed.

Lemma registry_holds_functions_and_class_shapes_witness :
  (exists o, Samples.BaseFn = JsFunction o)
  \/ (exists o s, Samples.BaseFn = JsObject o
                  /\ prototype o = ProtoTruthy (Some s)
                  /\ starts_with_class s = true).
Proof.
  apply (registry_holds_functions_and_class_shapes Samples.BaseFn
           [JsNumber 3; JsUndefined; Samples.PauseFn]).
  vm_compute. apply list_elem_of_In. right. left. reflexivity.
Defined.

Lemma instantiate_non_function (P : list JsValue) (v : JsValue) :
  v ∈ P -> typeof v <> "function" ->
  exists es, instantiate P = (es, Throw (TypeError "plugin is not a constructor")).
Proof.
  intros Hv Ht. induction P as [|p P IH]; [by apply elem_of_nil in Hv|].
  apply elem_of_cons in Hv as [<-|Hv].
  - destruct v; try done; cbn; eauto.
  - destruct (IH Hv) as [es Hes]. cbn. rewrite Hes.
    destruct p; eauto.
Qed.

(** [uses] accepts an object that is not callable when its
    [prototype.constructor] reads as a class; from then on no container
    can be constructed: with such an object in [PLUGINS] the constructor
    throws, at [new plugin(this)] when the iframe was found. *)
Theorem class_shaped_object_breaks_construction (BasePlugin : JsValue)
    (o : Shape) (s : string) (reg : list JsValue) :
  prototype o = ProtoTruthy (Some s) ->
  starts_with_class s = true ->
  uses BasePlugin (JsObject o) reg = Normal (sort (reg ++ [JsObject o]))
  /\ forall querySelector id sel opts el,
       querySelector sel = Some el ->
       outcome (constructor querySelector (sort (reg ++ [JsObject o])) id sel opts)
       = Throw (TypeError "plugin is not a constructor").
Proof.
  intros Hp Hs. split.
  - apply (uses_registers BasePlugin (JsObject o)). unfold registers. cbn.
    by rewrite Hp, Hs.
  - intros qs id sel opts el Hq. unfold constructor. rewrite Hq.
    destruct (instantiate_non_function (sort (reg ++ [JsObject o])) (JsObject o))
      as [es ->]; [|done..].
    rewrite sort_perm. set_solver.
Qed.

Lemma class_shaped_object_breaks_construction_witness :
  let o := mkShape "fake" None (ProtoTruthy (Some "class Fake {}")) in
  uses Samples.BaseFn (JsObject o) [Samples.PauseFn]
  = Normal (sort ([Samples.PauseFn] ++ [JsObject o])).
Proof.
  intros o.
  exact (proj1 (class_shaped_object_breaks_construction Samples.BaseFn o
                  "class Fake {}" [Samples.PauseFn] eq_refl eq_refl)).
Defined.

(** When the constructor returns a container, the selector found the
    iframe that the container has as [main] and [dom], every value in
    [PLUGINS] is a function, and the container holds one instance per
    registered value, in the order of [PLUGINS], outside a session, with
    a client that listens for nothing yet. *)
Theorem constructed_container (querySelector : string -> option Element)
    (PLUGINS : list JsValue) (id : nat) (sel : string)
    (opts : option Options) (w : World) :
  outcome (constructor querySelector PLUGINS id sel opts) = Normal w ->
  querySelector sel = Some (iframe w)
  /\ Forall (fun v => typeof v = "function") PLUGINS
  /\ plugins (this w) = map mkInstance PLUGINS
  /\ in_session w = false
  /\ main (this w) = Some TheIframe
  /\ dom (this w) = Some TheIframe
  /\ (listeners <$> client (this w)) = Some [].
Proof.
  intros Hw.
  assert (Hf : Forall (fun v => typeof v = "function") PLUGINS).
  { apply Forall_forall. intros v Hv.
    destruct (decide (typeof v = "function")) as [|Hn]; [done|].
    destruct (instantiate_non_function PLUGINS v Hv Hn) as [es Hes].
    unfold constructor in Hw. destruct (querySelector sel); [|done].
    by rewrite Hes in Hw. }
  destruct (constructor_plugins _ _ _ _ _ _ Hw) as (Hps & _ & Hm).
  unfold constructor in Hw. destruct (querySelector sel) as [el|]; [|done].
  destruct (instantiate PLUGINS) as [es [insts|err]]; [|done].
  injection Hw as <-. by cbn in *.
Qed.

Lemma constructed_container_witness :
  plugins (this Samples.fresh_world)
  = map mkInstance [Samples.PauseFn; Samples.CaptionsFn; Samples.HelpFn].
Proof.
  assert (H : outcome (constructor Samples.document
                         [Samples.PauseFn; Samples.CaptionsFn; Samples.HelpFn]
                         0 "#game" None)
              = Normal Samples.fresh_world) by (vm_compute; reflexivity).
  exact (proj1 (proj2 (proj2 (constructed_container _ _ _ _ _ _ H)))).
Defined.

End RegistryMore.

(** ** The query string *)

Module JsonFacts.
Import Json Lifecycle Observations.
Local Open Scope string_scope.

Lemma string_app_cons (c : ascii) (a b : string) :
  String c a ++ b = String c (a ++ b).
Proof. reflexivity. Qed.

Lemma all_chars_app (f : ascii -> bool) (a b : string) :
  all_chars f (a ++ b) = all_chars f a && all_chars f b.
Proof.
  induction a as [|c a IH]; [done|].
  rewrite string_app_cons. cbn [all_chars]. by rewrite IH, andb_assoc.
Qed.

Lemma count_char_app (c : ascii) (a b : string) :
  count_char c (a ++ b) = (count_char c a + count_char c b)%nat.
Proof.
  induction a as [|d a IH]; [done|].
  rewrite string_app_cons. cbn [count_char]. rewrite IH. lia.
Qed.

Lemma all_chars_count (f : ascii -> bool) (c : ascii) (s : string) :
  all_chars f s = true -> f c = false -> count_char c s = 0%nat.
Proof.
  intros Hs Hc. induction s as [|d s IH]; [done|].
  cbn in *. apply andb_prop in Hs as [Hd Hs]. rewrite (IH Hs).
  destruct (Ascii.eqb_spec c d) as [->|]; [congruence|done].
Qed.

Lemma contains_char_count (c : ascii) (s : string) :
  contains_char c s = negb (count_char c s =? 0)%nat.
Proof.
  induction s as [|d s IH]; [done|].
  cbn. rewrite IH. by destruct (Ascii.eqb c d).
Qed.

Lemma hex2_url_safe (c : ascii) : all_chars url_safe (hex2 true c) = true.
Proof. destruct c as [[] [] [] [] [] [] [] []]; vm_compute; reflexivity. Qed.

(** [encodeURIComponent] puts out nothing but the unreserved characters
    and [%]: a character outside that set, such as [?], [&], [=], [#] or a
    space, never occurs in its result. *)
Theorem encodeURIComponent_url_safe (s : string) :
  all_chars url_safe (encodeURIComponent s) = true
  /\ forall c, url_safe c = false ->
               count_char c (encodeURIComponent s) = 0%nat.
Proof.
  assert (H : all_chars url_safe (encodeURIComponent s) = true).
  { induction s as [|c s IH]; [done|].
    cbn [encodeURIComponent]. rewrite all_chars_app, IH, andb_true_r.
    destruct (unreserved c) eqn:E.
    - cbn. unfold url_safe. by rewrite E.
    - change ("%" ++ hex2 true c) with (String "%" (hex2 true c)).
      cbn [all_chars]. by rewrite hex2_url_safe. }
  split; [done|]. intros c Hc. by eapply all_chars_count.
Qed.

(** [encodeURIComponent] works character by character: the encoding of a
    concatenation is the concatenation of the encodings. *)
Theorem encodeURIComponent_app (a b : string) :
  encodeURIComponent (a ++ b) = encodeURIComponent a ++ encodeURIComponent b.
Proof.
  induction a as [|c a IH]; [done|].
  rewrite string_app_cons. cbn [encodeURIComponent]. rewrite IH.
  destruct (unreserved c).
  - by rewrite !string_app_cons.
  - unfold hex2. by rewrite !string_app_cons.
Qed.

Lemma length_app_string (a b : string) :
  String.length (a ++ b) = (String.length a + String.length b)%nat.
Proof.
  induction a as [|c a IH]; [done|].
  rewrite string_app_cons. cbn [String.length]. by rewrite IH.
Qed.

Lemma escape_length (c : ascii) :
  String.length ("%" ++ hex2 true c) = 3%nat.
Proof. reflexivity. Qed.

(** A string of unreserved characters is its own encoding; every other
    character becomes three, so the encoding is at least as long as the
    string and at most three times as long. *)
Theorem encodeURIComponent_length (s : string) :
  (all_chars unreserved s = true -> encodeURIComponent s = s)
  /\ (String.length s <= String.length (encodeURIComponent s))%nat
  /\ (String.length (encodeURIComponent s) <= 3 * String.length s)%nat.
Proof.
  split; [|split].
  - induction s as [|c s IH]; [done|]. cbn [all_chars encodeURIComponent].
    intros [-> Hs]%andb_prop. by rewrite string_app_cons, IH.
  - induction s as [|c s IH]; [done|]. cbn [encodeURIComponent].
    rewrite length_app_string.
    destruct (unreserved c); rewrite ?escape_length; cbn; lia.
  - induction s as [|c s IH]; [done|]. cbn [encodeURIComponent].
    rewrite length_app_string.
    destruct (unreserved c); rewrite ?escape_length; cbn; lia.
Qed.

Lemma encodeURIComponent_length_witness :
  encodeURIComponent "level-2_(a)" = "level-2_(a)".
Proof.
  exact (proj1 (encodeURIComponent_length "level-2_(a)") eq_refl).
Defined.

(** The play options cannot break the URL: what [withPlayOptions] appends
    after [playOptions=] holds only unreserved characters and [%], so the
    result has the [?] characters of the given path, or exactly one if
    that had none, and exactly one [=] more than the given path. *)
Theorem withPlayOptions_separators (userPath : string) (po : Json) :
  (exists q,
     withPlayOptions userPath po
     = userPath ++ (if contains_char "?" userPath then "&" else "?")
                ++ "playOptions=" ++ q
     /\ all_chars url_safe q = true)
  /\ count_char "?" (withPlayOptions userPath po)
     = Nat.max 1 (count_char "?" userPath)
  /\ count_char "=" (withPlayOptions userPath po)
     = S (count_char "=" userPath).
Proof.
  destruct (encodeURIComponent_url_safe (stringify po)) as [Hsafe H0].
  split.
  { exists (encodeURIComponent (stringify po)). split; [|done].
    unfold withPlayOptions. by destruct (contains_char "?" userPath). }
  unfold withPlayOptions.
  rewrite contains_char_count.
  destruct (count_char "?" userPath =? 0)%nat eqn:E; cbn [negb];
    rewrite !count_char_app, !H0 by done; cbn.
  - apply Nat.eqb_eq in E. lia.
  - apply Nat.eqb_neq in E. lia.
Qed.

End JsonFacts.

(** ** More on the captions styles *)

Module CaptionsMore.
Import Captions CaptionsFacts.
Local Open Scope list_scope.

Lemma setCaptionsStyles_result (DEBUG : bool) (arg : StylesArg)
    (value : string) (st : State) :
  _captionsStyles (snd (setCaptionsStyles DEBUG arg value st))
  = match arg with
    | SObject m => Object_merge (_captionsStyles st) m
    | SNull => Object_merge (_captionsStyles st) ∅
    | SName prop => <[prop := value]> (_captionsStyles st)
    | SUndefined => _captionsStyles st
    end.
Proof.
  unfold setCaptionsStyles.
  by destruct (if DEBUG then _ else _) as [[]|e].
Qed.

Lemma merge_empty_source (target : gmap string string) :
  Object_merge target ∅ = target.
Proof. unfold Object_merge. by rewrite (left_id_L ∅ (∪)). Qed.

(** [setCaptionsStyles(name, value)] sets that one style and no other:
    for a name other than [__proto__] (an assignment to which stores no
    property) the style reads back as [value], and every other style
    reads as before (also when the debug validation rejected the
    value). *)
Theorem set_one_style (DEBUG : bool) (prop value : string) (st : State) :
  prop <> EmptyString ->
  prop <> "__proto__" ->
  let st' := snd (setCaptionsStyles DEBUG (SName prop) value st) in
  getCaptionsStyles (Some prop) st' = AValue (Some value)
  /\ forall f, f <> prop -> f <> EmptyString ->
       getCaptionsStyles (Some f) st' = getCaptionsStyles (Some f) st.
Proof.
  intros Hp _. cbn zeta. unfold getCaptionsStyles.
  rewrite setCaptionsStyles_result.
  rewrite (proj2 (String.eqb_neq prop EmptyString)) by done.
  split; [by rewrite lookup_insert_eq|].
  intros f Hf Hne. rewrite (proj2 (String.eqb_neq f EmptyString)) by done.
  by rewrite lookup_insert_ne.
Qed.

Lemma set_one_style_witness :
  getCaptionsStyles (Some "edge")
    (snd (setCaptionsStyles true (SName "edge") "drop" (setup ∅ false)))
  = AValue (Some "drop").
Proof.
  apply (set_one_style true "edge" "drop" (setup ∅ false)); discriminate.
Defined.

(** An object given to [setCaptionsStyles] changes only the styles it
    names; [null], [undefined] and any other non-string argument change
    none. *)
Theorem set_styles_touches_named_only (DEBUG : bool) (value : string)
    (st : State) :
  (forall m f, m !! f = None ->
     _captionsStyles (snd (setCaptionsStyles DEBUG (SObject m) value st)) !! f
     = _captionsStyles st !! f)
  /\ _captionsStyles (snd (setCaptionsStyles DEBUG SNull value st))
     = _captionsStyles st
  /\ _captionsStyles (snd (setCaptionsStyles DEBUG SUndefined value st))
     = _captionsStyles st.
Proof.
  rewrite !setCaptionsStyles_result. split; [|split].
  - intros m f Hf. rewrite setCaptionsStyles_result. by rewrite merge_lookup, Hf.
  - apply merge_empty_source.
  - done.
Qed.

(** Whenever [setCaptionsStyles] returns normally, what it wrote to
    [SavedData] under [captionsStyles] is the styles the plugin now holds,
    nothing else in [SavedData] changed, and the same styles were sent to
    the client if there is one; in a production build it returns normally
    for every argument. *)
Theorem successful_set_persists (DEBUG : bool) (arg : StylesArg)
    (value : string) (st : State) :
  let r := setCaptionsStyles DEBUG arg value st in
  (DEBUG = false -> fst r = Normal tt)
  /\ (fst r = Normal tt ->
      SavedData (snd r) !! CAPTIONS_STYLES = Some (_captionsStyles (snd r))
      /\ (forall key, key <> CAPTIONS_STYLES ->
            SavedData (snd r) !! key = SavedData st !! key)
      /\ sent (snd r)
         = sent st ++ (if has_client st
                       then [(CAPTIONS_STYLES, _captionsStyles (snd r))]
                       else [])).
Proof.
  cbn zeta. unfold setCaptionsStyles. split.
  - by intros ->.
  - destruct (if DEBUG then _ else _) as [[]|e]; [|done]. intros _. cbn.
    split; [by rewrite lookup_insert_eq|]. split.
    + intros key Hk. by rewrite lookup_insert_ne.
    + destruct (has_client st); [done|by rewrite app_nil_r].
Qed.

Lemma successful_set_persists_witness :
  fst (setCaptionsStyles false (SName "font") "wingdings" (setup ∅ true))
  = Normal tt.
Proof.
  exact (proj1 (successful_set_persists false (SName "font") "wingdings"
                  (setup ∅ true)) eq_refl).
Defined.

(** In a debug build a call that fails the validation throws after the
    styles were changed and before anything is saved or sent: [SavedData]
    and the messages sent are as before, yet the rejected values are
    what [getCaptionsStyles] returns from then on. *)
Theorem rejected_styles_stay_in_memory (m : gmap string string)
    (value : string) (st : State) :
  complete (Object_merge (_captionsStyles st) m) = false ->
  let r := setCaptionsStyles true (SObject m) value st in
  (exists msg, fst r = Throw (Thrown msg))
  /\ SavedData (snd r) = SavedData st
  /\ sent (snd r) = sent st
  /\ forall f v, m !! f = Some v -> f <> EmptyString ->
       getCaptionsStyles (Some f) (snd r) = AValue (Some v).
Proof.
  intros Hc. cbn zeta. unfold complete in Hc.
  assert (Hthrown : forall cs s e, validate cs s = Throw e -> exists msg, e = Thrown msg).
  { induction cs as [|[f reg] cs IH]; intros s e; cbn; [done|].
    destruct (invalid reg (s !! f)); [intros [= <-]; eauto|apply IH]. }
  split; [|split; [|split]].
  - unfold setCaptionsStyles.
    destruct (validate checks _) as [[]|e] eqn:E; [done|].
    destruct (Hthrown _ _ _ E) as [msg ->]. eauto.
  - unfold setCaptionsStyles. by destruct (validate checks _) as [[]|e].
  - unfold setCaptionsStyles. by destruct (validate checks _) as [[]|e].
  - intros f v Hf Hne. unfold getCaptionsStyles.
    rewrite setCaptionsStyles_result, merge_lookup, Hf.
    by rewrite (proj2 (String.eqb_neq f EmptyString)).
Qed.

Lemma rejected_styles_stay_in_memory_witness :
  let m : gmap string string := list_to_map [("color", "green")] in
  let r := setCaptionsStyles true (SObject m) EmptyString (setup ∅ true) in
  SavedData (snd r) = SavedData (setup ∅ true)
  /\ getCaptionsStyles (Some "color") (snd r) = AValue (Some "green").
Proof.
  intros m r.
  assert (Hc : complete (Object_merge (_captionsStyles (setup ∅ true)) m) = false)
    by (vm_compute; reflexivity).
  destruct (rejected_styles_stay_in_memory m EmptyString (setup ∅ true) Hc)
    as (_ & H1 & _ & H2).
  split; [exact H1|]. apply H2; [vm_compute; reflexivity|discriminate].
Defined.

Lemma validate_first (cs : list (string * (string -> bool)))
    (m : gmap string string) (e : JsError) :
  validate cs m = Throw e ->
  exists pre f reg post,
    cs = pre ++ (f, reg) :: post
    /\ validate pre m = Normal tt
    /\ invalid reg (m !! f) = true
    /\ e = Thrown ("Setting captions " ++ f ++ " style is invalid value : "
                   ++ shown (m !! f))%string.
Proof.
  induction cs as [|[f reg] cs IH]; cbn; [done|].
  destruct (invalid reg (m !! f)) eqn:E.
  - intros [= <-]. by exists [], f, reg, cs.
  - intros (pre & f' & reg' & post & -> & Hpre & Hinv & ->)%IH.
    exists ((f, reg) :: pre), f', reg', post. cbn. by rewrite E.
Qed.

(** The debug validation checks color, background, size, edge, font and
    align in this order and stops at the first style that is missing,
    empty or outside its pattern: the string thrown names that style and
    its value, and every style checked before it is valid. *)
Theorem validation_reports_first_invalid (m : gmap string string)
    (value : string) (st : State) (e : JsError) :
  fst (setCaptionsStyles true (SObject m) value st) = Throw e ->
  let styles := Object_merge (_captionsStyles st) m in
  exists pre f reg post,
    checks = pre ++ (f, reg) :: post
    /\ (forall f' reg', In (f', reg') pre -> invalid reg' (styles !! f') = false)
    /\ invalid reg (styles !! f) = true
    /\ e = Thrown ("Setting captions " ++ f ++ " style is invalid value : "
                   ++ shown (styles !! f))%string.
Proof.
  unfold setCaptionsStyles. cbn zeta.
  destruct (validate checks _) as [[]|e'] eqn:E; [done|]. intros [= ->].
  destruct (validate_first _ _ _ E) as (pre & f & reg & post & Hc & Hpre & Hi & He).
  exists pre, f, reg, post. split; [done|]. split; [|done].
  by apply validate_Normal.
Qed.

Lemma validation_reports_first_invalid_witness :
  let m : gmap string string :=
    list_to_map [("size", "huge"); ("color", "green")] in
  let styles := Object_merge (_captionsStyles (setup ∅ true)) m in
  exists pre f reg post,
    checks = pre ++ (f, reg) :: post
    /\ invalid reg (styles !! f) = true.
Proof.
  intros m styles.
  assert (H : fst (setCaptionsStyles true (SObject m) EmptyString (setup ∅ true))
              = Throw (Thrown "Setting captions color style is invalid value : green"))
    by (vm_compute; reflexivity).
  destruct (validation_reports_first_invalid m EmptyString (setup ∅ true) _ H)
    as (pre & f & reg & post & Hc & _ & Hi & _).
  exists pre, f, reg, post. exact (conj Hc Hi).
Defined.

Lemma merge_self (m : gmap string string) : Object_merge m m = m.
Proof.
  apply map_eq. intros f. rewrite merge_lookup. by destruct (m !! f).
Qed.

(** Applying again the styles that a successful [setCaptionsStyles] saved
    (what [opened] does with [SavedData.read(CAPTIONS_STYLES)]) returns
    normally and leaves the styles as they are. *)
Theorem reapplying_saved_styles (DEBUG : bool) (arg : StylesArg)
    (value value' : string) (st : State) :
  let r1 := setCaptionsStyles DEBUG arg value st in
  fst r1 = Normal tt ->
  exists saved,
    SavedData (snd r1) !! CAPTIONS_STYLES = Some saved
    /\ fst (setCaptionsStyles DEBUG (SObject saved) value' (snd r1)) = Normal tt
    /\ _captionsStyles (snd (setCaptionsStyles DEBUG (SObject saved) value' (snd r1)))
       = _captionsStyles (snd r1).
Proof.
  cbn zeta. intros H1.
  assert (Hv : (if DEBUG
                then validate checks
                       (_captionsStyles (snd (setCaptionsStyles DEBUG arg value st)))
                else Normal tt) = Normal tt).
  { revert H1. unfold setCaptionsStyles.
    by destruct (if DEBUG then _ else _) as [[]|e] eqn:E. }
  pose proof (proj1 (proj2 (successful_set_persists DEBUG arg value st) H1))
    as Hsaved.
  revert Hv Hsaved.
  generalize (snd (setCaptionsStyles DEBUG arg value st)). intros s1 Hv Hsaved.
  exists (_captionsStyles s1). split; [done|].
  unfold setCaptionsStyles. rewrite merge_self, Hv. done.
Qed.

Lemma reapplying_saved_styles_witness :
  let r1 := setCaptionsStyles true (SName "size") "xl" (setup ∅ true) in
  exists saved,
    SavedData (snd r1) !! CAPTIONS_STYLES = Some saved
    /\ fst (setCaptionsStyles true (SObject saved) EmptyString (snd r1))
       = Normal tt.
Proof.
  intros r1.
  assert (H1 : fst (setCaptionsStyles true (SName "size") "xl" (setup ∅ true))
               = Normal tt) by (vm_compute; reflexivity).
  destruct (reapplying_saved_styles true (SName "size") "xl" EmptyString
              (setup ∅ true) H1) as (saved & Hs & Hok & _).
  exists saved. split; [exact Hs|exact Hok].
Defined.

(** [setup] starts from the defaults and lays the saved styles over them:
    with nothing saved the styles are the defaults; a saved style wins
    over the default of its name, every other style is the default; and
    when the saved styles are valid the result passes the debug
    validation. *)
Theorem setup_merges_saved_over_defaults
    (store : gmap string (gmap string string)) (cl : bool) :
  (store !! CAPTIONS_STYLES = None ->
   _captionsStyles (setup store cl) = DEFAULT_CAPTIONS_STYLES)
  /\ (forall saved, store !! CAPTIONS_STYLES = Some saved ->
      (forall f, _captionsStyles (setup store cl) !! f
                 = match saved !! f with
                   | Some v => Some v
                   | None => DEFAULT_CAPTIONS_STYLES !! f
                   end)
      /\ (valid_styles saved = true ->
          complete (_captionsStyles (setup store cl)) = true)).
Proof.
  unfold setup. cbn [_captionsStyles]. rewrite merge_empty_target. split.
  - intros ->. cbn. apply merge_empty_source.
  - intros saved ->. cbn [default]. unfold id. split.
    + intros f. apply merge_lookup.
    + intros Hv. apply complete_validate, validate_Normal.
      intros f reg Hin. rewrite merge_lookup.
      destruct (saved !! f) as [v|] eqn:E.
      * by eapply valid_styles_field.
      * by apply (proj1 (validate_Normal _ _) defaults_complete).
Qed.

Lemma setup_merges_saved_over_defaults_witness :
  _captionsStyles (setup ∅ true) = DEFAULT_CAPTIONS_STYLES.
Proof.
  exact (proj1 (setup_merges_saved_over_defaults ∅ true) (lookup_empty _)).
Defined.

End CaptionsMore.
